(** * Hermes VM: slot acceptors and VM experiment flags

  A shallow embedding of two headers of the Hermes VM,

  - [include/hermes/VM/VMExperiments.h]: the bit flags of the active
    VM experiments;
  - [include/hermes/VM/SlotAcceptor.h]: the acceptor interfaces through
    which a garbage collector is told about roots and heap slots.

  The file is organised as definitions first (Parts I to IV) and
  theorems afterwards (Parts V and VI). *)

From Stdlib Require Import ZArith List String Bool Lia.
Import ListNotations.
Local Open Scope string_scope.
Local Open Scope list_scope.
Local Open Scope Z_scope.

(* ================================================================== *)
(** * Part I.  VMExperiments.h *)
(* ================================================================== *)

Module experiments.

(** The enumerators of the anonymous [enum] of namespace
    [experiments], in declaration order. *)
Inductive Experiment : Type :=
| Default
| MAdviseSequential
| MAdviseRandom
| MAdviseStringsSequential
| MAdviseStringsRandom
| MAdviseStringsWillNeed
| VerifyBytecodeChecksum
| IgnoreMemoryWarnings
| HadesCompaction.

(** The initialiser the header gives each enumerator. *)
Definition value (e : Experiment) : Z :=
  match e with
  | Default => 0
  | MAdviseSequential => Z.shiftl 1 2
  | MAdviseRandom => Z.shiftl 1 3
  | MAdviseStringsSequential => Z.shiftl 1 4
  | MAdviseStringsRandom => Z.shiftl 1 5
  | MAdviseStringsWillNeed => Z.shiftl 1 6
  | VerifyBytecodeChecksum => Z.shiftl 1 7
  | IgnoreMemoryWarnings => Z.shiftl 1 9
  | HadesCompaction => Z.shiftl 1 10
  end.

(** [using VMExperimentFlags = uint32_t]: a [Z] kept below [2^32]. *)
Definition VMExperimentFlags_width : Z := 32.
Definition VMExperimentFlags : Type := Z.
Definition uint32_t (z : Z) : VMExperimentFlags :=
  z mod 2 ^ VMExperimentFlags_width.

(** The position of the bit an experiment owns; [Default] owns none. *)
Definition bit (e : Experiment) : option Z :=
  match e with
  | Default => None
  | MAdviseSequential => Some 2
  | MAdviseRandom => Some 3
  | MAdviseStringsSequential => Some 4
  | MAdviseStringsRandom => Some 5
  | MAdviseStringsWillNeed => Some 6
  | VerifyBytecodeChecksum => Some 7
  | IgnoreMemoryWarnings => Some 9
  | HadesCompaction => Some 10
  end.

(** A set of active experiments is stored as the bitwise-or of its
    members, in a [uint32_t]. *)
Definition flags_of (active : list Experiment) : VMExperimentFlags :=
  uint32_t (fold_right (fun e acc => Z.lor (value e) acc) 0 active).

(** The usual test [(flags & e) != 0]. *)
Definition is_active (flags : VMExperimentFlags) (e : Experiment) : bool :=
  negb (Z.land flags (value e) =? 0).

End experiments.

(* ================================================================== *)
(** * Part II.  SlotAcceptor.h: the declarations *)
(* ================================================================== *)

(** The static side of the header: which classes it declares, their
    bases, their member functions with their qualifiers and specifiers,
    and the using-declarations.  Member name lookup with its
    ambiguities, overriding, overload viability and [std::is_base_of]
    are defined over such a table of classes.

    The table covers what the header uses: classes with non-virtual
    bases, and non-static member functions and member function
    templates without an ellipsis.  A type is written by the type it
    denotes, never by an alias of it. *)

Module Cpp.

(** Object types named in the header. *)
Inductive CType : Type :=
| void
| char
| GCPointerBase
| GCHermesValue
| PinnedHermesValue
| RootSymbolID
| GCSymbolID
| WeakRefBase
| WeakRootBase
| HeapSnapshot
| SectionEnum                      (* RootSectionAcceptor::Section *)
| Class (name : string)            (* any other class type *)
| Fundamental (name : string)      (* int, double, ... *)
| TParam (name : string)           (* a template parameter *)
| Ptr (T : CType)                  (* T * *)
| Const (T : CType)                (* const T *)
| StdFunctionVoidRef (T : CType).  (* std::function<void(T &)> *)

Inductive ParamType : Type :=
| ByValue (T : CType)              (* T *)
| ByRef (T : CType).               (* T & *)

Definition CType_eq_dec (a b : CType) : {a = b} + {a <> b}.
Proof. decide equality; apply string_dec. Defined.

Definition ParamType_eq_dec (a b : ParamType) : {a = b} + {a <> b}.
Proof. decide equality; apply CType_eq_dec. Defined.

(** The type of a parameter as it enters the type of the function: a
    [const] at the top of a parameter passed by value is dropped, so
    parameters [const char *const name] and [const char *name] declare
    one function. *)
Fixpoint strip_const (T : CType) : CType :=
  match T with
  | Const T' => strip_const T'
  | _ => T
  end.

Definition adjusted (p : ParamType) : ParamType :=
  match p with
  | ByValue T => ByValue (strip_const T)
  | ByRef T => ByRef T
  end.

(** Two parameter lists that give the same parameter-type-list. *)
Definition same_params (ps qs : list ParamType) : bool :=
  if list_eq_dec ParamType_eq_dec (map adjusted ps) (map adjusted qs)
  then true else false.

(** The cv-qualifier and the ref-qualifier after the parameter list of
    a member function. *)
Inductive CvQualifier : Type :=
| cv_none
| cv_const
| cv_volatile
| cv_const_volatile.

Inductive RefQualifier : Type :=
| ref_none
| ref_lvalue      (* & *)
| ref_rvalue.     (* && *)

Definition CvQualifier_eqb (a b : CvQualifier) : bool :=
  match a, b with
  | cv_none, cv_none
  | cv_const, cv_const
  | cv_volatile, cv_volatile
  | cv_const_volatile, cv_const_volatile => true
  | _, _ => false
  end.

Definition RefQualifier_eqb (a b : RefQualifier) : bool :=
  match a, b with
  | ref_none, ref_none
  | ref_lvalue, ref_lvalue
  | ref_rvalue, ref_rvalue => true
  | _, _ => false
  end.

Inductive Specifier : Type :=
| NonVirtual       (* a plain member function, or member template *)
| Virtual          (* virtual, with a body *)
| PureVirtual      (* virtual ... = 0 *)
| Override         (* override *)
| OverrideFinal.   (* override final *)

(** A non-static member function or member function template. *)
Record Method : Type := mkMethod {
  mname : string;
  mtemplate : list string;         (* template parameters; none: no template *)
  mparams : list ParamType;
  mcv : CvQualifier;
  mref : RefQualifier;
  mspec : Specifier;
  mreturns : option CType          (* [None] is [void] *)
}.

(** The member functions of the header other than the two [acceptPtr]
    are no templates, carry no qualifier and return [void]. *)
Definition method (n : string) (ps : list ParamType) (spec : Specifier)
  : Method :=
  mkMethod n [] ps cv_none ref_none spec None.

(** Two declarations of one signature: the same name, parameter-type-list,
    cv-qualifier and ref-qualifier, and the same template parameters.
    Declared in a derived class, the first overrides the second when
    the second is virtual (a virtual function is no template, so neither
    is its overrider) and otherwise hides it; with another qualifier it
    is another function beside it. *)
Definition same_signature (m m' : Method) : bool :=
  String.eqb (mname m) (mname m')
  && same_params (mparams m) (mparams m')
  && CvQualifier_eqb (mcv m) (mcv m')
  && RefQualifier_eqb (mref m) (mref m')
  && (if list_eq_dec string_dec (mtemplate m) (mtemplate m')
      then true else false).

Record ClassDecl : Type := mkClass {
  cname : string;
  cbases : list string;            (* direct bases, none of them virtual *)
  cmethods : list Method;          (* destructors and constructors left out *)
  cusing : list (string * string); (* using Base::name *)
  cfinal : bool
}.

Definition pure (n : string) (p : ParamType) : Method :=
  method n [p] PureVirtual.
Definition pure_named (n : string) (p : ParamType) : Method :=
  method n [p; ByValue (Ptr (Const char))] PureVirtual.
Definition sealed (n : string) (p : ParamType) : Method :=
  method n [p] OverrideFinal.
Definition overriding_named (n : string) (p : ParamType) : Method :=
  method n [p; ByValue (Ptr (Const char))] Override.

Definition is_sealed (m : Method) : bool :=
  match mspec m with
  | OverrideFinal => true
  | _ => false
  end.

Definition SlotAcceptor_decl : ClassDecl :=
  mkClass "SlotAcceptor" []
    [ pure "accept" (ByRef GCPointerBase);
      pure "accept" (ByRef GCHermesValue);
      pure "accept" (ByValue GCSymbolID) ]
    [] false.

Definition WeakRefAcceptor_decl : ClassDecl :=
  mkClass "WeakRefAcceptor" []
    [ pure "accept" (ByRef WeakRefBase) ]
    [] false.

Definition RootSectionAcceptor_decl : ClassDecl :=
  mkClass "RootSectionAcceptor" []
    [ method "beginRootSection" [ByValue SectionEnum] Virtual;
      method "endRootSection" [] Virtual ]
    [] false.

Definition RootAcceptor_decl : ClassDecl :=
  mkClass "RootAcceptor" ["RootSectionAcceptor"]
    [ pure "accept" (ByRef (Ptr void));
      pure "accept" (ByRef PinnedHermesValue);
      pure "accept" (ByValue RootSymbolID);
      mkMethod "acceptPtr" ["T"] [ByRef (Ptr (TParam "T"))]
        cv_none ref_none NonVirtual None ]
    [] false.

Definition RootAndSlotAcceptor_decl : ClassDecl :=
  mkClass "RootAndSlotAcceptor" ["RootAcceptor"; "SlotAcceptor"]
    []
    [ ("RootAcceptor", "accept"); ("SlotAcceptor", "accept") ] false.

Definition RootAndSlotAcceptorWithNames_decl : ClassDecl :=
  mkClass "RootAndSlotAcceptorWithNames" ["RootAndSlotAcceptor"]
    [ sealed "accept" (ByRef (Ptr void));
      pure_named "accept" (ByRef (Ptr void));
      sealed "accept" (ByRef PinnedHermesValue);
      pure_named "accept" (ByRef PinnedHermesValue);
      sealed "accept" (ByValue RootSymbolID);
      pure_named "accept" (ByValue RootSymbolID);
      mkMethod "acceptPtr" ["T"]
        [ByRef (Ptr (TParam "T")); ByValue (Ptr (Const char))]
        cv_none ref_none NonVirtual None;
      sealed "accept" (ByRef GCPointerBase);
      pure_named "accept" (ByRef GCPointerBase);
      sealed "accept" (ByRef GCHermesValue);
      pure_named "accept" (ByRef GCHermesValue);
      sealed "accept" (ByValue GCSymbolID);
      pure_named "accept" (ByValue GCSymbolID);
      method "provideSnapshot"
        [ByRef (Const (StdFunctionVoidRef HeapSnapshot))] Virtual ]
    [ ("RootAndSlotAcceptor", "acceptPtr") ] false.

Definition WeakRootAcceptor_decl : ClassDecl :=
  mkClass "WeakRootAcceptor" ["WeakRefAcceptor"; "RootSectionAcceptor"]
    [ pure "acceptWeak" (ByRef WeakRootBase) ]
    [] false.

(** The template [DroppingAcceptor<Acceptor>]; its member list does not
    depend on the argument. *)
Definition DroppingAcceptor_decl : ClassDecl :=
  mkClass "DroppingAcceptor" ["RootAndSlotAcceptorWithNames"]
    [ overriding_named "accept" (ByRef (Ptr void));
      overriding_named "accept" (ByRef GCPointerBase);
      overriding_named "accept" (ByRef PinnedHermesValue);
      overriding_named "accept" (ByRef GCHermesValue);
      overriding_named "accept" (ByValue RootSymbolID);
      overriding_named "accept" (ByValue GCSymbolID) ]
    [ ("RootAndSlotAcceptorWithNames", "accept") ] true.

(** A class table lists the most recently declared class first, so that
    the bases of a class are found in the tail after it. *)
Definition ClassTable : Type := list ClassDecl.

Definition header : ClassTable :=
  [ DroppingAcceptor_decl;
    WeakRootAcceptor_decl;
    RootAndSlotAcceptorWithNames_decl;
    RootAndSlotAcceptor_decl;
    RootAcceptor_decl;
    RootSectionAcceptor_decl;
    WeakRefAcceptor_decl;
    SlotAcceptor_decl ].

(** A translation unit that includes the header and then declares
    classes of its own ([user], most recent first). *)
Definition program (user : ClassTable) : ClassTable := user ++ header.

Definition class_names (tbl : ClassTable) : list string := map cname tbl.

(** [derives tbl D B]: class [D] is [B] or has [B] among its direct or
    indirect bases. *)
Fixpoint derives (tbl : ClassTable) (D B : string) : bool :=
  match tbl with
  | [] => false
  | c :: earlier =>
      if String.eqb (cname c) D
      then String.eqb D B || existsb (fun X => derives earlier X B) (cbases c)
      else derives earlier D B
  end.

(** What a template may be instantiated with. *)
Inductive TemplateArg : Type :=
| ClassType (name : string)
| NonClassType (T : CType).

(** [std::is_base_of<Base, Derived>::value]. *)
Definition is_base_of (tbl : ClassTable) (Base : string) (Derived : TemplateArg)
  : bool :=
  match Derived with
  | ClassType d => derives tbl d Base
  | NonClassType _ => false
  end.

(** The outcome of instantiating a class template: the static assertion
    of its body either fails, with its message, or the class exists. *)
Inductive Instantiation : Type :=
| static_assert_failed (message : string)
| instantiated (c : ClassDecl).

Definition DroppingAcceptor_instantiate (tbl : ClassTable)
  (Acceptor : TemplateArg) : Instantiation :=
  if is_base_of tbl "RootAndSlotAcceptor" Acceptor
  then instantiated DroppingAcceptor_decl
  else static_assert_failed
         "Can only use this with a subclass of RootAndSlotAcceptor".

(** ** Member name lookup and overload viability *)

Definition named (n : string) (m : Method) : bool := String.eqb (mname m) n.

(** A declaration brought in by a using-declaration is hidden by a
    member of the class with the same signature. *)
Definition hidden_by (own : list (string * Method)) (d : string * Method)
  : bool :=
  existsb (fun o => same_signature (snd o) (snd d)) own.

(** What the lookup of a member name in a class scope gives: the
    declarations found, each with the class that declares it (none when
    the name is not a member), or an ambiguity, which makes the program
    ill-formed. *)
Inductive Lookup : Type :=
| Declarations (found : list (string * Method))
| AmbiguousLookup.

(** The declarations several using-declarations bring in; one that
    names an ambiguous member is an ambiguity. *)
Fixpoint brought_in (results : list Lookup) : Lookup :=
  match results with
  | [] => Declarations []
  | r :: rest =>
      match r, brought_in rest with
      | Declarations ds, Declarations ds' => Declarations (ds ++ ds')
      | _, _ => AmbiguousLookup
      end
  end.

(** The lookup sets of the direct bases merged: bases in which the name
    is not found do not count; found in one base, the result is that
    base's; found in two, which are different subobjects since no base
    is virtual, the lookup is ambiguous. *)
Fixpoint merged (results : list Lookup) : Lookup :=
  match results with
  | [] => Declarations []
  | r :: rest =>
      match r, merged rest with
      | AmbiguousLookup, _ => AmbiguousLookup
      | _, AmbiguousLookup => AmbiguousLookup
      | Declarations [], m => m
      | Declarations ds, Declarations [] => Declarations ds
      | Declarations _, Declarations _ => AmbiguousLookup
      end
  end.


(** Lookup of the member name [n] in the scope of class [C]: the members
    the class declares and those its using-declarations bring in; the
    bases are searched, and their results merged, only when the class
    itself has none. *)
Fixpoint lookup (tbl : ClassTable) (C n : string) : Lookup :=
  match tbl with
  | [] => Declarations []
  | c :: earlier =>
      if String.eqb (cname c) C
      then
        let own := map (pair C) (filter (named n) (cmethods c)) in
        match brought_in
                (map (fun u => lookup earlier (fst u) n)
                     (filter (fun u => String.eqb (snd u) n) (cusing c)))
        with
        | AmbiguousLookup => AmbiguousLookup
        | Declarations used =>
            match own ++ filter (fun d => negb (hidden_by own d)) used with
            | [] => merged (map (fun B => lookup earlier B n) (cbases c))
            | found => Declarations found
            end
        end
      else lookup earlier C n
  end.

(** A candidate is viable for a call when it takes as many parameters as
    there are arguments and every argument converts to its parameter.
    Which conversions exist depends on types the header only names, so
    the relation is a parameter. *)
Fixpoint all2 (conv : ParamType -> ParamType -> bool)
  (args params : list ParamType) : bool :=
  match args, params with
  | [], [] => true
  | a :: args', p :: params' => conv a p && all2 conv args' params'
  | _, _ => false
  end.

Definition viable (conv : ParamType -> ParamType -> bool)
  (args : list ParamType) (cand : string * Method) : bool :=
  all2 conv args (mparams (snd cand)).

(** The candidates of the call [x.n(args)] for [x] of class [C]: the
    viable ones among the declarations the lookup finds; an ambiguous
    lookup leaves the call without any. *)
Definition resolve (tbl : ClassTable) (conv : ParamType -> ParamType -> bool)
  (C n : string) (args : list ParamType) : list (string * Method) :=
  match lookup tbl C n with
  | Declarations found => filter (viable conv args) found
  | AmbiguousLookup => []
  end.

(** ** A sample translation unit

    Four classes a client of the header might declare, for the examples:
    a marking acceptor deriving from [RootAndSlotAcceptor]; a class with
    no base; a class deriving from [RootAcceptor] and [SlotAcceptor]
    side by side; and a class deriving from both [SlotAcceptor] and
    [WeakRootAcceptor]. *)

Definition overriding (n : string) (p : ParamType) : Method :=
  method n [p] Override.

Definition Marker_decl : ClassDecl :=
  mkClass "Marker" ["RootAndSlotAcceptor"]
    [ overriding "accept" (ByRef (Ptr void));
      overriding "accept" (ByRef PinnedHermesValue);
      overriding "accept" (ByValue RootSymbolID);
      overriding "accept" (ByRef GCPointerBase);
      overriding "accept" (ByRef GCHermesValue);
      overriding "accept" (ByValue GCSymbolID) ]
    [] false.

Definition Counter_decl : ClassDecl :=
  mkClass "Counter" [] [ method "count" [] NonVirtual ] [] false.

Definition SideBySide_decl : ClassDecl :=
  mkClass "SideBySide" ["RootAcceptor"; "SlotAcceptor"] [] [] false.

Definition WeakMarker_decl : ClassDecl :=
  mkClass "WeakMarker" ["SlotAcceptor"; "WeakRootAcceptor"]
    [ overriding "accept" (ByRef GCPointerBase);
      overriding "accept" (ByRef GCHermesValue);
      overriding "accept" (ByValue GCSymbolID);
      overriding "accept" (ByRef WeakRefBase);
      overriding "acceptWeak" (ByRef WeakRootBase) ]
    [] false.

Definition sample_user : ClassTable :=
  [ WeakMarker_decl; SideBySide_decl; Counter_decl; Marker_decl ].

(** A class like [WeakMarker] that leaves the weak-root function to its
    base. *)
Definition WeakSlots_decl : ClassDecl :=
  mkClass "WeakSlots" ["SlotAcceptor"; "WeakRootAcceptor"] [] [] false.

(** The conversion relation with every conversion in it. *)
Definition any_conversion (a p : ParamType) : bool := true.

(** ** Final functions, final classes and abstract classes *)

Definition is_pure (m : Method) : bool :=
  match mspec m with
  | PureVirtual => true
  | _ => false
  end.

(** The final member functions of a class: those it declares
    [override final] and those of its bases. *)
Fixpoint final_methods (tbl : ClassTable) (C : string) : list Method :=
  match tbl with
  | [] => []
  | c :: earlier =>
      if String.eqb (cname c) C
      then filter is_sealed (cmethods c)
           ++ flat_map (final_methods earlier) (cbases c)
      else final_methods earlier C
  end.

Definition class_is_final (tbl : ClassTable) (B : string) : bool :=
  existsb (fun c => String.eqb (cname c) B && cfinal c) tbl.

(** A class declaration, read after the classes of [earlier], is refused
    when a base is a final class, or when a member function has the
    signature of a final function of a base. *)
Definition derives_from_final (earlier : ClassTable) (c : ClassDecl) : bool :=
  existsb (class_is_final earlier) (cbases c).

Definition overrides_final (earlier : ClassTable) (c : ClassDecl) : bool :=
  existsb (fun m =>
             existsb (same_signature m)
                     (flat_map (final_methods earlier) (cbases c)))
          (cmethods c).

Definition ill_formed (earlier : ClassTable) (c : ClassDecl) : bool :=
  derives_from_final earlier c || overrides_final earlier c.

(** No class of the table breaks a [final]. *)
Fixpoint well_formed (tbl : ClassTable) : bool :=
  match tbl with
  | [] => true
  | c :: earlier => negb (ill_formed earlier c) && well_formed earlier
  end.

(** The pure virtual functions of a class that have no overrider: those
    the class declares pure, and those left by its bases that it does
    not declare itself.  A class that has one is abstract. *)
Fixpoint unimplemented (tbl : ClassTable) (C : string) : list Method :=
  match tbl with
  | [] => []
  | c :: earlier =>
      if String.eqb (cname c) C
      then filter is_pure (cmethods c)
           ++ filter (fun m => negb (existsb (same_signature m) (cmethods c)))
                     (flat_map (unimplemented earlier) (cbases c))
      else unimplemented earlier C
  end.

(** The parameter of [accept] for each of the six kinds of slot, in the
    order of [RootAndSlotAcceptorWithNames]. *)
Definition slot_kinds : list ParamType :=
  [ ByRef (Ptr void); ByRef PinnedHermesValue; ByValue RootSymbolID;
    ByRef GCPointerBase; ByRef GCHermesValue; ByValue GCSymbolID ].

(** The three kinds of slot inside the heap, in the order of
    [SlotAcceptor]. *)
Definition heap_slot_kinds : list ParamType :=
  [ ByRef GCPointerBase; ByRef GCHermesValue; ByValue GCSymbolID ].


(** The conversion relation with the identity conversions only. *)
Definition exact_match (a p : ParamType) : bool :=
  if ParamType_eq_dec a p then true else false.

(** A class that derives from [RootAndSlotAcceptorWithNames] and
    declares an unnamed [accept] of its own. *)
Definition Unsealing_decl : ClassDecl :=
  mkClass "Unsealing" ["RootAndSlotAcceptorWithNames"]
    [ overriding "accept" (ByRef (Ptr void)) ]
    [] false.

(** A class that derives from [RootAndSlotAcceptorWithNames] and
    overrides the six named overloads, as [DroppingAcceptor] does. *)
Definition NamedMarker_decl : ClassDecl :=
  mkClass "NamedMarker" ["RootAndSlotAcceptorWithNames"]
    (map (overriding_named "accept") slot_kinds)
    [] false.

(** A class that derives from [RootAndSlotAcceptorWithNames] and
    declares [void accept(void *&ptr) const]: another function beside
    the final one, not an overrider of it. *)
Definition ConstAccept_decl : ClassDecl :=
  mkClass "ConstAccept" ["RootAndSlotAcceptorWithNames"]
    [ mkMethod "accept" [] [ByRef (Ptr void)] cv_const ref_none
        NonVirtual None ]
    [] false.

(** A class like [NamedMarker] that writes the name parameter of each
    overrider [const char *const name]. *)
Definition ConstNameMarker_decl : ClassDecl :=
  mkClass "ConstNameMarker" ["RootAndSlotAcceptorWithNames"]
    (map (fun p => method "accept"
                     [p; ByValue (Const (Ptr (Const char)))] Override)
         slot_kinds)
    [] false.

(** A class that derives from [WeakRootAcceptor] and overrides
    [acceptWeak] only. *)
Definition WeakOnly_decl : ClassDecl :=
  mkClass "WeakOnly" ["WeakRootAcceptor"]
    [ overriding "acceptWeak" (ByRef WeakRootBase) ]
    [] false.

End Cpp.

(* ================================================================== *)
(** * Part III.  SlotAcceptor.h: the root sections *)
(* ================================================================== *)

Module RootSections.

(** [#define ROOT_SECTION(name) name,] : one enumerator per entry. *)
Definition ROOT_SECTION (name : string) : list string := [name].

(** The enumerator list of [enum class Section].  The file
    [hermes/VM/RootSections.def], a sequence of [ROOT_SECTION(name)]
    lines, is not part of this development; its names are the
    parameter [RootSections_def]. *)
Definition Section_enumerators (RootSections_def : list string)
  : list string :=
  flat_map ROOT_SECTION RootSections_def ++ ["NumSections"; "InvalidSection"].

(** An enumeration without initialisers numbers its enumerators from
    zero, each one more than the one before. *)
Fixpoint number_from (next : Z) (names : list string) : list (string * Z) :=
  match names with
  | [] => []
  | n :: rest => (n, next) :: number_from (next + 1) rest
  end.

Definition Section_values (RootSections_def : list string)
  : list (string * Z) :=
  number_from 0 (Section_enumerators RootSections_def).

(** The value of the enumerator [Section::name], if there is one. *)
Fixpoint value_of (values : list (string * Z)) (name : string) : option Z :=
  match values with
  | [] => None
  | (n, v) :: rest => if String.eqb n name then Some v else value_of rest name
  end.

Definition ordinal (RootSections_def : list string) (name : string)
  : option Z :=
  value_of (Section_values RootSections_def) name.

(** The enumerators that come from the definition file. *)
Definition real_sections (RootSections_def : list string)
  : list (string * Z) :=
  number_from 0 (flat_map ROOT_SECTION RootSections_def).

End RootSections.

(** A value of [RootSectionAcceptor::Section], by its underlying
    integer. *)
Definition Section : Type := Z.

(* ================================================================== *)
(** * Part IV.  SlotAcceptor.h: the acceptors *)
(* ================================================================== *)

(** A reference [T &] is the address of the object it is bound to; the
    type is a phantom index. *)
Record Ref (T : Cpp.CType) : Type := mkRef { address : Z }.
Arguments mkRef {T} address.
Arguments address {T} r.

(** [reinterpret_cast<B &>(r)]: the same address under another type. *)
Definition reinterpret_cast {A : Cpp.CType} (B : Cpp.CType) (r : Ref A)
  : Ref B :=
  mkRef (address r).

(** [const char *name]: a null pointer or a string. *)
Definition Name : Type := option string.
Definition nullptr : Name := None.

Section Acceptors.

(** Everything a member function can read and write: the acceptor
    objects themselves, the slots they are handed and the heap behind
    them.  A member function returning [void] is a function from the
    state before the call to the state after it. *)
Variable World : Type.

(** [SymbolID.h] is not part of this development: the two identifier
    types, passed by value, are parameters. *)
Variable RootSymbolID : Type.
Variable GCSymbolID : Type.

(** ** SlotAcceptor *)

Record SlotAcceptor : Type := {
  accept_GCPointerBase : Ref Cpp.GCPointerBase -> World -> World;
  accept_GCHermesValue : Ref Cpp.GCHermesValue -> World -> World;
  accept_GCSymbolID : GCSymbolID -> World -> World
}.

(** ** WeakRefAcceptor *)

Record WeakRefAcceptor : Type := {
  accept_WeakRefBase : Ref Cpp.WeakRefBase -> World -> World
}.

(** ** RootSectionAcceptor

    The two member functions are virtual with the empty body [{}]: a
    class either overrides one or inherits the empty body. *)

Record RootSectionAcceptor : Type := {
  beginRootSection_override : option (Section -> World -> World);
  endRootSection_override : option (World -> World)
}.

Definition RootSectionAcceptor_beginRootSection (section : Section)
  (w : World) : World := w.

Definition RootSectionAcceptor_endRootSection (w : World) : World := w.

Definition beginRootSection (a : RootSectionAcceptor) (section : Section)
  : World -> World :=
  match beginRootSection_override a with
  | Some overrider => overrider section
  | None => RootSectionAcceptor_beginRootSection section
  end.

Definition endRootSection (a : RootSectionAcceptor) : World -> World :=
  match endRootSection_override a with
  | Some overrider => overrider
  | None => RootSectionAcceptor_endRootSection
  end.

(** A class that overrides neither. *)
Definition no_section_overrides : RootSectionAcceptor :=
  {| beginRootSection_override := None; endRootSection_override := None |}.

(** ** RootAcceptor *)

Record RootAcceptor : Type := {
  RootAcceptor_sections :> RootSectionAcceptor;
  accept_void_ptr : Ref (Cpp.Ptr Cpp.void) -> World -> World;
  accept_PinnedHermesValue : Ref Cpp.PinnedHermesValue -> World -> World;
  accept_RootSymbolID : RootSymbolID -> World -> World
}.

(** [template <typename T> void acceptPtr(T *&ptr)]. *)
Definition acceptPtr (a : RootAcceptor) {T : Cpp.CType}
  (ptr : Ref (Cpp.Ptr T)) : World -> World :=
  accept_void_ptr a (reinterpret_cast (Cpp.Ptr Cpp.void) ptr).

(** ** RootAndSlotAcceptor *)

Record RootAndSlotAcceptor : Type := {
  as_RootAcceptor :> RootAcceptor;
  as_SlotAcceptor :> SlotAcceptor
}.

(** The six kinds of slot, and the overload of [accept] that a call
    selects by the static type of its argument. *)
Inductive Slot : Type :=
| RawRoot (ptr : Ref (Cpp.Ptr Cpp.void))
| PinnedValue (hv : Ref Cpp.PinnedHermesValue)
| RootSymbol (sym : RootSymbolID)
| PointerField (ptr : Ref Cpp.GCPointerBase)
| ValueField (hv : Ref Cpp.GCHermesValue)
| SymbolField (sym : GCSymbolID).

Definition accept (a : RootAndSlotAcceptor) (s : Slot) : World -> World :=
  match s with
  | RawRoot ptr => accept_void_ptr a ptr
  | PinnedValue hv => accept_PinnedHermesValue a hv
  | RootSymbol sym => accept_RootSymbolID a sym
  | PointerField ptr => accept_GCPointerBase a ptr
  | ValueField hv => accept_GCHermesValue a hv
  | SymbolField sym => accept_GCSymbolID a sym
  end.

(** ** RootAndSlotAcceptorWithNames

    A class deriving from it supplies the six named overloads, which are
    pure, and may override [provideSnapshot] and the two section
    functions.  The six unnamed overloads are [override final]: they
    are not among the fields but functions of them. *)

Record RootAndSlotAcceptorWithNames : Type := {
  WithNames_sections : RootSectionAcceptor;
  accept_void_ptr_name : Ref (Cpp.Ptr Cpp.void) -> Name -> World -> World;
  accept_PinnedHermesValue_name :
    Ref Cpp.PinnedHermesValue -> Name -> World -> World;
  accept_RootSymbolID_name : RootSymbolID -> Name -> World -> World;
  accept_GCPointerBase_name : Ref Cpp.GCPointerBase -> Name -> World -> World;
  accept_GCHermesValue_name : Ref Cpp.GCHermesValue -> Name -> World -> World;
  accept_GCSymbolID_name : GCSymbolID -> Name -> World -> World;
  provideSnapshot_override :
    option ((Ref Cpp.HeapSnapshot -> World -> World) -> World -> World)
}.

Definition accept_name (a : RootAndSlotAcceptorWithNames) (s : Slot)
  (name : Name) : World -> World :=
  match s with
  | RawRoot ptr => accept_void_ptr_name a ptr name
  | PinnedValue hv => accept_PinnedHermesValue_name a hv name
  | RootSymbol sym => accept_RootSymbolID_name a sym name
  | PointerField ptr => accept_GCPointerBase_name a ptr name
  | ValueField hv => accept_GCHermesValue_name a hv name
  | SymbolField sym => accept_GCSymbolID_name a sym name
  end.

(** The object seen as a [RootAndSlotAcceptor]: its unnamed overloads
    are the final ones of this class. *)
Definition WithNames_as_RootAndSlotAcceptor
  (a : RootAndSlotAcceptorWithNames) : RootAndSlotAcceptor :=
  {| as_RootAcceptor :=
       {| RootAcceptor_sections := WithNames_sections a;
          accept_void_ptr := fun ptr => accept_void_ptr_name a ptr nullptr;
          accept_PinnedHermesValue :=
            fun hv => accept_PinnedHermesValue_name a hv nullptr;
          accept_RootSymbolID :=
            fun sym => accept_RootSymbolID_name a sym nullptr |};
     as_SlotAcceptor :=
       {| accept_GCPointerBase :=
            fun ptr => accept_GCPointerBase_name a ptr nullptr;
          accept_GCHermesValue :=
            fun hv => accept_GCHermesValue_name a hv nullptr;
          accept_GCSymbolID :=
            fun sym => accept_GCSymbolID_name a sym nullptr |} |}.

(** [template <typename T> void acceptPtr(T *&ptr, const char *name)]. *)
Definition acceptPtr_name (a : RootAndSlotAcceptorWithNames) {T : Cpp.CType}
  (ptr : Ref (Cpp.Ptr T)) (name : Name) : World -> World :=
  accept_void_ptr_name a (reinterpret_cast (Cpp.Ptr Cpp.void) ptr) name.

(** [virtual void provideSnapshot(const std::function<void(HeapSnapshot &)> &func) {}] *)
Definition RootAndSlotAcceptorWithNames_provideSnapshot
  (func : Ref Cpp.HeapSnapshot -> World -> World) (w : World) : World := w.

Definition provideSnapshot (a : RootAndSlotAcceptorWithNames)
  (func : Ref Cpp.HeapSnapshot -> World -> World) : World -> World :=
  match provideSnapshot_override a with
  | Some overrider => overrider func
  | None => RootAndSlotAcceptorWithNames_provideSnapshot func
  end.

(** ** WeakRootAcceptor *)

Record WeakRootAcceptor : Type := {
  as_WeakRefAcceptor :> WeakRefAcceptor;
  WeakRootAcceptor_sections : RootSectionAcceptor;
  acceptWeak : Ref Cpp.WeakRootBase -> World -> World
}.

(** ** DroppingAcceptor

    The object holds a reference to the acceptor it wraps, whose state
    is part of the world; it has no state of its own.  It overrides the
    six named overloads and nothing else. *)

Definition DroppingAcceptor (acceptor : RootAndSlotAcceptor)
  : RootAndSlotAcceptorWithNames :=
  {| WithNames_sections := no_section_overrides;
     accept_void_ptr_name := fun ptr _ => accept_void_ptr acceptor ptr;
     accept_GCPointerBase_name :=
       fun ptr _ => accept_GCPointerBase acceptor ptr;
     accept_PinnedHermesValue_name :=
       fun hv _ => accept_PinnedHermesValue acceptor hv;
     accept_GCHermesValue_name :=
       fun hv _ => accept_GCHermesValue acceptor hv;
     accept_RootSymbolID_name := fun sym _ => accept_RootSymbolID acceptor sym;
     accept_GCSymbolID_name := fun sym _ => accept_GCSymbolID acceptor sym;
     provideSnapshot_override := None |}.

(** ** Sequences of calls *)

(** The calls a producer makes on an acceptor through the named
    overloads, and through the unnamed ones. *)
Definition visit_named (a : RootAndSlotAcceptorWithNames)
  (calls : list (Slot * Name)) (w : World) : World :=
  fold_left (fun w' c => accept_name a (fst c) (snd c) w') calls w.

Definition visit (a : RootAndSlotAcceptor) (slots : list Slot) (w : World)
  : World :=
  fold_left (fun w' s => accept a s w') slots w.

End Acceptors.

Arguments accept_GCPointerBase {World GCSymbolID} s _ _.
Arguments accept_GCHermesValue {World GCSymbolID} s _ _.
Arguments accept_GCSymbolID {World GCSymbolID} s _ _.
Arguments accept_WeakRefBase {World} w _ _.
Arguments accept_void_ptr {World RootSymbolID} r _ _.
Arguments accept_PinnedHermesValue {World RootSymbolID} r _ _.
Arguments accept_RootSymbolID {World RootSymbolID} r _ _.
Arguments accept_void_ptr_name {World RootSymbolID GCSymbolID} r _ _ _.
Arguments accept_PinnedHermesValue_name {World RootSymbolID GCSymbolID} r _ _ _.
Arguments accept_RootSymbolID_name {World RootSymbolID GCSymbolID} r _ _ _.
Arguments accept_GCPointerBase_name {World RootSymbolID GCSymbolID} r _ _ _.
Arguments accept_GCHermesValue_name {World RootSymbolID GCSymbolID} r _ _ _.
Arguments accept_GCSymbolID_name {World RootSymbolID GCSymbolID} r _ _ _.
Arguments WithNames_sections {World RootSymbolID GCSymbolID} r.
Arguments provideSnapshot_override {World RootSymbolID GCSymbolID} r.
Arguments beginRootSection_override {World} r.
Arguments endRootSection_override {World} r.
Arguments acceptWeak {World} w _ _.
Arguments WeakRootAcceptor_sections {World} w.
Arguments beginRootSection {World} a section _.
Arguments endRootSection {World} a _.
Arguments no_section_overrides {World}.
Arguments acceptPtr {World RootSymbolID} a {T} ptr _.
Arguments accept {World RootSymbolID GCSymbolID} a s _.
Arguments accept_name {World RootSymbolID GCSymbolID} a s name _.
Arguments WithNames_as_RootAndSlotAcceptor {World RootSymbolID GCSymbolID} a.
Arguments acceptPtr_name {World RootSymbolID GCSymbolID} a {T} ptr name _.
Arguments provideSnapshot {World RootSymbolID GCSymbolID} a func _.
Arguments DroppingAcceptor {World RootSymbolID GCSymbolID} acceptor.
Arguments visit_named {World RootSymbolID GCSymbolID} a calls w.
Arguments visit {World RootSymbolID GCSymbolID} a slots w.
Arguments RawRoot {RootSymbolID GCSymbolID} ptr.
Arguments PinnedValue {RootSymbolID GCSymbolID} hv.
Arguments RootSymbol {RootSymbolID GCSymbolID} sym.
Arguments PointerField {RootSymbolID GCSymbolID} ptr.
Arguments ValueField {RootSymbolID GCSymbolID} hv.
Arguments SymbolField {RootSymbolID GCSymbolID} sym.

(** ** A traversal through the named interface

    The calls a producer of roots makes on a named acceptor: section
    brackets, named visits and the snapshot request. *)

Section Traversal.

Variable World : Type.
Variable RootSymbolID : Type.
Variable GCSymbolID : Type.

Inductive Call : Type :=
| CallBeginRootSection (section : Section)
| CallEndRootSection
| CallAccept (s : Slot RootSymbolID GCSymbolID) (name : Name)
| CallProvideSnapshot (func : Ref Cpp.HeapSnapshot -> World -> World).

Definition perform
  (a : RootAndSlotAcceptorWithNames World RootSymbolID GCSymbolID)
  (c : Call) : World -> World :=
  match c with
  | CallBeginRootSection section =>
      beginRootSection (WithNames_sections a) section
  | CallEndRootSection => endRootSection (WithNames_sections a)
  | CallAccept s name => accept_name a s name
  | CallProvideSnapshot func => provideSnapshot a func
  end.

Definition traverse
  (a : RootAndSlotAcceptorWithNames World RootSymbolID GCSymbolID)
  (calls : list Call) (w : World) : World :=
  fold_left (fun w' c => perform a c w') calls w.

(** The slots among the calls, in order. *)
Fixpoint accepted_slots (calls : list Call)
  : list (Slot RootSymbolID GCSymbolID) :=
  match calls with
  | [] => []
  | CallAccept s _ :: rest => s :: accepted_slots rest
  | _ :: rest => accepted_slots rest
  end.

End Traversal.

Arguments CallBeginRootSection {World RootSymbolID GCSymbolID} section.
Arguments CallEndRootSection {World RootSymbolID GCSymbolID}.
Arguments CallAccept {World RootSymbolID GCSymbolID} s name.
Arguments CallProvideSnapshot {World RootSymbolID GCSymbolID} func.
Arguments perform {World RootSymbolID GCSymbolID} a c _.
Arguments traverse {World RootSymbolID GCSymbolID} a calls w.
Arguments accepted_slots {World RootSymbolID GCSymbolID} calls.

(** ** Recording acceptors

    Acceptors whose world is the list of the calls they received, the
    most recent last. *)

Section Recording.

Variable RootSymbolID : Type.
Variable GCSymbolID : Type.

Inductive Event : Type :=
| Accepted (s : Slot RootSymbolID GCSymbolID)
| AcceptedNamed (s : Slot RootSymbolID GCSymbolID) (name : Name)
| BeganRootSection (section : Section)
| EndedRootSection
| ProvidedSnapshot.

Definition record (e : Event) (log : list Event) : list Event := log ++ [e].

(** A class that overrides both section functions, to record them. *)
Definition recording_sections : RootSectionAcceptor (list Event) :=
  {| beginRootSection_override :=
       Some (fun section => record (BeganRootSection section));
     endRootSection_override := Some (record EndedRootSection) |}.

(** A [RootAndSlotAcceptor] that records every slot it is given and
    every section boundary. *)
Definition Recorder : RootAndSlotAcceptor (list Event) RootSymbolID GCSymbolID :=
  {| as_RootAcceptor :=
       {| RootAcceptor_sections := recording_sections;
          accept_void_ptr := fun ptr => record (Accepted (RawRoot ptr));
          accept_PinnedHermesValue :=
            fun hv => record (Accepted (PinnedValue hv));
          accept_RootSymbolID := fun sym => record (Accepted (RootSymbol sym)) |};
     as_SlotAcceptor :=
       {| accept_GCPointerBase :=
            fun ptr => record (Accepted (PointerField ptr));
          accept_GCHermesValue := fun hv => record (Accepted (ValueField hv));
          accept_GCSymbolID := fun sym => record (Accepted (SymbolField sym)) |} |}.

(** A [RootAndSlotAcceptorWithNames] that records slots with their
    names and the section boundaries, and whose [provideSnapshot] records
    the request and then initiates the callback on the snapshot at
    address [snapshot]. *)
Definition NamedRecorder (snapshot : Ref Cpp.HeapSnapshot)
  : RootAndSlotAcceptorWithNames (list Event) RootSymbolID GCSymbolID :=
  {| WithNames_sections := recording_sections;
     accept_void_ptr_name :=
       fun ptr name => record (AcceptedNamed (RawRoot ptr) name);
     accept_PinnedHermesValue_name :=
       fun hv name => record (AcceptedNamed (PinnedValue hv) name);
     accept_RootSymbolID_name :=
       fun sym name => record (AcceptedNamed (RootSymbol sym) name);
     accept_GCPointerBase_name :=
       fun ptr name => record (AcceptedNamed (PointerField ptr) name);
     accept_GCHermesValue_name :=
       fun hv name => record (AcceptedNamed (ValueField hv) name);
     accept_GCSymbolID_name :=
       fun sym name => record (AcceptedNamed (SymbolField sym) name);
     provideSnapshot_override :=
       Some (fun func log => func snapshot (record ProvidedSnapshot log)) |}.

End Recording.

Arguments Accepted {RootSymbolID GCSymbolID} s.
Arguments AcceptedNamed {RootSymbolID GCSymbolID} s name.
Arguments BeganRootSection {RootSymbolID GCSymbolID} section.
Arguments EndedRootSection {RootSymbolID GCSymbolID}.
Arguments ProvidedSnapshot {RootSymbolID GCSymbolID}.
Arguments record {RootSymbolID GCSymbolID} e log.
Arguments recording_sections {RootSymbolID GCSymbolID}.
Arguments Recorder {RootSymbolID GCSymbolID}.
Arguments NamedRecorder {RootSymbolID GCSymbolID} snapshot.

(** ** The producer of an object's fields *)

Section FieldProducer.

Variable World : Type.
Variable GCSymbolID : Type.

(** The run-time tag of a tagged value: whether the value currently
    holds a reference into the heap. *)
Inductive Tag : Type :=
| NonReferenceTag
| ReferenceTag.

(** The fields of a heap object, as its metadata lists them. *)
Inductive Field : Type :=
| ManagedPointer (slot : Ref Cpp.GCPointerBase)
| TaggedValue (slot : Ref Cpp.GCHermesValue) (current : Tag)
| Identifier (sym : GCSymbolID).

(** Modelled from the spec: the visitor that drives a [SlotAcceptor]
    over the fields of an object ([SlotVisitor] and the field metadata
    of the object types are not in this development).  The spec asks a
    producer to invoke exactly the overload matching the kind of each
    reference it owns, exactly once per reference per pass, and to
    offer a tagged value slot whether or not it currently holds a
    reference. *)
Definition visitField (a : SlotAcceptor World GCSymbolID) (f : Field)
  : World -> World :=
  match f with
  | ManagedPointer slot => accept_GCPointerBase a slot
  | TaggedValue slot _ => accept_GCHermesValue a slot
  | Identifier sym => accept_GCSymbolID a sym
  end.

Definition visitFields (a : SlotAcceptor World GCSymbolID)
  (fields : list Field) (w : World) : World :=
  fold_left (fun w' f => visitField a f w') fields w.

(** Modelled from the spec: the mock object of the scenario, with the
    fields [childRef], [val] and [key] declared in this order. *)
Definition MockObject (childRef : Ref Cpp.GCPointerBase)
  (val : Ref Cpp.GCHermesValue) (val_tag : Tag) (key : GCSymbolID)
  : list Field :=
  [ ManagedPointer childRef; TaggedValue val val_tag; Identifier key ].

End FieldProducer.

Arguments ManagedPointer {GCSymbolID} slot.
Arguments TaggedValue {GCSymbolID} slot current.
Arguments Identifier {GCSymbolID} sym.
Arguments visitField {World GCSymbolID} a f _.
Arguments visitFields {World GCSymbolID} a fields w.
Arguments MockObject {GCSymbolID} childRef val val_tag key.

(** The slot a field is, whatever its tag: the overload that matches
    the kind of the field is the one [accept] selects for this slot. *)
Definition field_slot {RootSymbolID GCSymbolID : Type} (f : Field GCSymbolID)
  : Slot RootSymbolID GCSymbolID :=
  match f with
  | ManagedPointer slot => PointerField slot
  | TaggedValue slot _ => ValueField slot
  | Identifier sym => SymbolField sym
  end.

(* ================================================================== *)
(** * Part V.  Theorems *)
(* ================================================================== *)

(** Two lists that together have no duplicate share no element. *)
Lemma NoDup_app_fresh (xs ys : list string) (a : string) :
  NoDup (xs ++ ys) -> In a ys -> ~ In a xs.
Proof.
  induction xs as [|x xs IH]; cbn; intros Hnd Hys Hxs; [exact Hxs|].
  inversion Hnd as [|? ? Hnotin Hnd']; subst.
  destruct Hxs as [->|Hxs].
  - apply Hnotin. apply in_or_app. now right.
  - exact (IH Hnd' Hys Hxs).
Qed.

(* ------------------------------------------------------------------ *)
(** ** The experiment flags *)
(* ------------------------------------------------------------------ *)

Module experiments_facts.
Import experiments.

Lemma value_bit (e : Experiment) (k : Z) :
  bit e = Some k -> value e = 2 ^ k /\ 0 <= k < VMExperimentFlags_width.
Proof.
  destruct e; simpl; intros H; inversion H; subst;
    (split; [reflexivity | unfold VMExperimentFlags_width; lia]).
Qed.

Lemma bit_inj (a b : Experiment) (k : Z) :
  bit a = Some k -> bit b = Some k -> a = b.
Proof.
  destruct a; simpl; intros Ha; inversion Ha; subst;
    destruct b; simpl; intros Hb; inversion Hb; reflexivity.
Qed.

Lemma value_testbit (e : Experiment) (n : Z) :
  Z.testbit (value e) n = match bit e with
                          | Some k => n =? k
                          | None => false
                          end.
Proof.
  destruct (bit e) as [k|] eqn:Hb.
  - destruct (value_bit e k Hb) as [-> Hk].
    destruct (Z.eqb_spec n k) as [->|Hne].
    + apply Z.pow2_bits_true; lia.
    + apply Z.pow2_bits_false; lia.
  - destruct e; simpl in Hb; try discriminate. apply Z.testbit_0_l.
Qed.

(** The bits of the or of a list of experiments. *)
Lemma fold_testbit (active : list Experiment) (n : Z) :
  Z.testbit (fold_right (fun e acc => Z.lor (value e) acc) 0 active) n
  = existsb (fun e => match bit e with
                      | Some k => n =? k
                      | None => false
                      end) active.
Proof.
  induction active as [|e active IH]; simpl.
  - apply Z.testbit_0_l.
  - rewrite Z.lor_spec, IH, value_testbit. reflexivity.
Qed.

Lemma lor_below (a b n : Z) :
  0 <= n -> 0 <= a < 2 ^ n -> 0 <= b < 2 ^ n -> 0 <= Z.lor a b < 2 ^ n.
Proof.
  intros Hn Ha Hb.
  assert (Hnn : 0 <= Z.lor a b) by (apply Z.lor_nonneg; lia).
  split; [exact Hnn|].
  destruct (Z.eq_dec (Z.lor a b) 0) as [Hz|Hnz].
  - rewrite Hz. apply Z.pow_pos_nonneg; lia.
  - apply Z.log2_lt_pow2; [lia|].
    rewrite Z.log2_lor by lia.
    apply Z.max_lub_lt.
    + destruct (Z.eq_dec a 0) as [->|Ha0].
      * change (Z.log2 0) with 0.
        destruct (Z.eq_dec n 0) as [->|]; [|lia].
        assert (b = 0) by (change (2 ^ 0) with 1 in Hb; lia). subst b.
        exfalso. apply Hnz. reflexivity.
      * apply Z.log2_lt_pow2; lia.
    + destruct (Z.eq_dec b 0) as [->|Hb0].
      * change (Z.log2 0) with 0.
        destruct (Z.eq_dec n 0) as [->|]; [|lia].
        assert (a = 0) by (change (2 ^ 0) with 1 in Ha; lia). subst a.
        exfalso. apply Hnz. reflexivity.
      * apply Z.log2_lt_pow2; lia.
Qed.

Lemma fold_range (active : list Experiment) :
  0 <= fold_right (fun e acc => Z.lor (value e) acc) 0 active < 2 ^ 11.
Proof.
  induction active as [|e active IH]; cbn [fold_right].
  - lia.
  - apply lor_below; [lia | | exact IH].
    destruct e; cbn; lia.
Qed.

Lemma flags_of_fold (active : list Experiment) :
  flags_of active = fold_right (fun e acc => Z.lor (value e) acc) 0 active.
Proof.
  unfold flags_of, uint32_t, VMExperimentFlags_width.
  apply Z.mod_small. pose proof (fold_range active). lia.
Qed.

Lemma is_active_flags_of (active : list Experiment) (e : Experiment) :
  e <> Default ->
  is_active (flags_of active) e = true <-> In e active.
Proof.
  intros Hne. unfold is_active. rewrite flags_of_fold.
  assert (Hk : exists k, bit e = Some k)
    by (destruct e; simpl; eauto; congruence).
  destruct Hk as [k Hk]. destruct (value_bit e k Hk) as [Hv Hr].
  rewrite negb_true_iff, Z.eqb_neq.
  set (f := fold_right (fun e acc => Z.lor (value e) acc) 0 active).
  assert (Hbit : Z.testbit f k = true <-> In e active).
  { unfold f. rewrite fold_testbit, existsb_exists. split.
    - intros [x [Hin Hx]]. destruct (bit x) as [kx|] eqn:Hbx; [|discriminate].
      apply Z.eqb_eq in Hx. subst kx.
      rewrite (bit_inj e x k Hk Hbx). exact Hin.
    - intros Hin. exists e. split; [exact Hin|].
      rewrite Hk. apply Z.eqb_refl. }
  rewrite <- Hbit. split.
  - intros Hnz. destruct (Z.testbit f k) eqn:Ht; [reflexivity|].
    exfalso. apply Hnz. apply Z.bits_inj'. intros n Hn.
    rewrite Z.land_spec, Z.bits_0, Hv.
    destruct (Z.eq_dec n k) as [->|Hnk].
    + rewrite Ht. reflexivity.
    + rewrite Z.pow2_bits_false by lia. apply andb_false_r.
  - intros Ht Hz.
    assert (Hc : Z.testbit (Z.land f (value e)) k = true).
    { rewrite Z.land_spec, Ht, Hv, Z.pow2_bits_true by lia. reflexivity. }
    rewrite Hz, Z.bits_0 in Hc. discriminate.
Qed.

(** C10.  [Default] is zero; every other experiment constant is a single
    bit [1 << k] with [k] below the 32 bits of [VMExperimentFlags]; two
    different constants never share a bit (their bitwise-and is zero and
    their values differ); and the bitwise-or of any collection of
    experiments fits in 32 bits without truncation and has exactly the
    bits of its members set, so membership of each experiment other
    than [Default] is read back from the flags word. *)
Theorem experiment_flags_single_bit_disjoint :
  value Default = 0
  /\ (forall e, e = Default \/
        exists k, 0 <= k < VMExperimentFlags_width /\ value e = 2 ^ k)
  /\ (forall a b, a = b \/
        (Z.land (value a) (value b) = 0 /\ value a <> value b))
  /\ (forall active,
        0 <= flags_of active < 2 ^ VMExperimentFlags_width
        /\ flags_of active
           = fold_right (fun e acc => Z.lor (value e) acc) 0 active
        /\ forall e, e = Default \/
             (is_active (flags_of active) e = true <-> In e active)).
Proof.
  split; [reflexivity|]. split; [|split].
  - intros e. destruct (bit e) as [k|] eqn:Hb.
    + right. exists k. destruct (value_bit e k Hb). auto.
    + left. destruct e; simpl in Hb; congruence.
  - intros a b.
    destruct a, b; try (left; reflexivity);
      right; (split; [reflexivity | cbn; discriminate]).
  - intros active. split; [|split].
    + rewrite flags_of_fold. pose proof (fold_range active) as H.
      unfold VMExperimentFlags_width. lia.
    + apply flags_of_fold.
    + intros e. destruct e; try (left; reflexivity);
        right; apply is_active_flags_of; discriminate.
Qed.

Example flags_of_two_experiments :
  flags_of [HadesCompaction; MAdviseRandom] = 1032
  /\ is_active 1032 MAdviseRandom = true
  /\ is_active 1032 IgnoreMemoryWarnings = false.
Proof. repeat split. Qed.

End experiments_facts.

(* ------------------------------------------------------------------ *)
(** ** The acceptors *)
(* ------------------------------------------------------------------ *)

Section AcceptorFacts.

Context {World RootSymbolID GCSymbolID : Type}.

Implicit Types (a : RootAndSlotAcceptorWithNames World RootSymbolID GCSymbolID)
  (acceptor : RootAndSlotAcceptor World RootSymbolID GCSymbolID)
  (s : Slot RootSymbolID GCSymbolID) (w : World).

(** One unnamed call on a named acceptor is the named call with a null
    name. *)
Lemma sealed_accept a s w :
  accept (WithNames_as_RootAndSlotAcceptor a) s w = accept_name a s nullptr w.
Proof. destruct s; reflexivity. Qed.

(** One named call on the adapter is the unnamed call on the wrapped
    acceptor. *)
Lemma dropping_accept acceptor s (name : Name) w :
  accept_name (DroppingAcceptor acceptor) s name w = accept acceptor s w.
Proof. destruct s; reflexivity. Qed.

Lemma visit_app acceptor (xs ys : list (Slot RootSymbolID GCSymbolID)) w :
  visit acceptor (xs ++ ys) w = visit acceptor ys (visit acceptor xs w).
Proof. unfold visit. apply fold_left_app. Qed.

Lemma visit_sealed a (slots : list (Slot RootSymbolID GCSymbolID)) w :
  visit (WithNames_as_RootAndSlotAcceptor a) slots w
  = visit_named a (map (fun s => (s, nullptr)) slots) w.
Proof.
  revert w. induction slots as [|s slots IH]; intros w.
  - reflexivity.
  - cbn [visit visit_named map fold_left fst snd].
    rewrite sealed_accept. apply IH.
Qed.

Lemma visit_dropping acceptor
  (calls : list (Slot RootSymbolID GCSymbolID * Name)) w :
  visit_named (DroppingAcceptor acceptor) calls w
  = visit acceptor (map fst calls) w.
Proof.
  revert w. induction calls as [|[s name] calls IH]; intros w.
  - reflexivity.
  - cbn [visit visit_named map fold_left fst snd].
    rewrite dropping_accept. apply IH.
Qed.

End AcceptorFacts.

(** What the recorder writes for a sequence of unnamed calls. *)
Lemma visit_Recorder {RootSymbolID GCSymbolID : Type}
  (slots : list (Slot RootSymbolID GCSymbolID))
  (log : list (Event RootSymbolID GCSymbolID)) :
  visit Recorder slots log = log ++ map Accepted slots.
Proof.
  unfold visit. revert log. induction slots as [|s slots IH]; intros log.
  - cbn. now rewrite app_nil_r.
  - cbn [fold_left map]. rewrite IH.
    destruct s; cbn; unfold record; now rewrite <- app_assoc.
Qed.

Lemma visit_named_NamedRecorder {RootSymbolID GCSymbolID : Type}
  (snapshot : Ref Cpp.HeapSnapshot)
  (calls : list (Slot RootSymbolID GCSymbolID * Name))
  (log : list (Event RootSymbolID GCSymbolID)) :
  visit_named (NamedRecorder snapshot) calls log
  = log ++ map (fun c => AcceptedNamed (fst c) (snd c)) calls.
Proof.
  unfold visit_named. revert log.
  induction calls as [|[s name] calls IH]; intros log.
  - cbn. now rewrite app_nil_r.
  - cbn [fold_left map fst snd]. rewrite IH.
    destruct s; cbn; unfold record; now rewrite <- app_assoc.
Qed.

Example unnamed_calls_on_NamedRecorder :
  visit (WithNames_as_RootAndSlotAcceptor (@NamedRecorder Z Z (mkRef 0)))
    [ PointerField (mkRef 8); SymbolField 3 ] []
  = [ AcceptedNamed (PointerField (mkRef 8)) None;
      AcceptedNamed (SymbolField 3) None ].
Proof. reflexivity. Qed.

(** C1.  For every acceptor deriving from [RootAndSlotAcceptorWithNames]
    and every slot of any of the six kinds, the unnamed [accept] gives
    the same result as the named [accept] with a null name, from every
    state; the same holds of whole sequences of calls, and on the
    recording acceptor the unnamed calls are logged as named calls with a
    null name.  The six unnamed overloads are the members the class
    declares [override final], one per kind, so a derived class supplies
    the named overloads only. *)
Theorem unnamed_accept_is_named_accept_with_nullptr
  (World RootSymbolID GCSymbolID : Type)
  (a : RootAndSlotAcceptorWithNames World RootSymbolID GCSymbolID) :
  (forall (s : Slot RootSymbolID GCSymbolID) (w : World),
      accept (WithNames_as_RootAndSlotAcceptor a) s w
      = accept_name a s nullptr w)
  /\ (forall (slots : list (Slot RootSymbolID GCSymbolID)) (w : World),
         visit (WithNames_as_RootAndSlotAcceptor a) slots w
         = visit_named a (map (fun s => (s, nullptr)) slots) w)
  /\ (forall (snapshot : Ref Cpp.HeapSnapshot)
             (slots : list (Slot RootSymbolID GCSymbolID)),
         visit (WithNames_as_RootAndSlotAcceptor (NamedRecorder snapshot))
               slots []
         = map (fun s => AcceptedNamed s nullptr) slots)
  /\ map (fun m => (Cpp.mname m, Cpp.mparams m))
         (filter Cpp.is_sealed (Cpp.cmethods Cpp.RootAndSlotAcceptorWithNames_decl))
     = [ ("accept", [Cpp.ByRef (Cpp.Ptr Cpp.void)]);
         ("accept", [Cpp.ByRef Cpp.PinnedHermesValue]);
         ("accept", [Cpp.ByValue Cpp.RootSymbolID]);
         ("accept", [Cpp.ByRef Cpp.GCPointerBase]);
         ("accept", [Cpp.ByRef Cpp.GCHermesValue]);
         ("accept", [Cpp.ByValue Cpp.GCSymbolID]) ].
Proof.
  split; [|split; [|split]].
  - apply sealed_accept.
  - apply visit_sealed.
  - intros snapshot slots.
    rewrite visit_sealed, visit_named_NamedRecorder, map_map. reflexivity.
  - reflexivity.
Qed.

Example DroppingAcceptor_over_Recorder :
  visit_named (DroppingAcceptor (@Recorder Z Z))
    [ (RawRoot (mkRef 16), Some "stackSlot");
      (RootSymbol 7, nullptr);
      (ValueField (mkRef 48), Some "val") ] []
  = [ Accepted (RawRoot (mkRef 16));
      Accepted (RootSymbol 7);
      Accepted (ValueField (mkRef 48)) ].
Proof. reflexivity. Qed.

(** C2.  For every acceptor [A] of the unnamed contract and every
    sequence of named calls, with any names, driving the adapter around
    [A] through the named overloads leaves the same state as driving
    [A] through its unnamed overloads with the same slots in the same
    order; on the recording acceptor the log is that sequence of slots,
    the names gone. *)
Theorem DroppingAcceptor_forwards_unnamed
  (World RootSymbolID GCSymbolID : Type)
  (A : RootAndSlotAcceptor World RootSymbolID GCSymbolID)
  (calls : list (Slot RootSymbolID GCSymbolID * Name)) :
  (forall w : World,
      visit_named (DroppingAcceptor A) calls w = visit A (map fst calls) w)
  /\ (forall log : list (Event RootSymbolID GCSymbolID),
         visit_named (DroppingAcceptor Recorder) calls log
         = visit Recorder (map fst calls) log
         /\ visit_named (DroppingAcceptor Recorder) calls log
            = log ++ map Accepted (map fst calls)).
Proof.
  split.
  - intros w. apply visit_dropping.
  - intros log. rewrite visit_dropping. split; [reflexivity|].
    apply visit_Recorder.
Qed.

(** C3.  For every pointee type [T] and every slot of type [T *],
    [acceptPtr] is the call of the overload taking [void *&] on the
    reinterpreted slot, with and without a name; the result depends on
    the address of the slot only, not on [T]; and on a named acceptor the
    inherited unnamed [acceptPtr] ends in the named raw-pointer overload
    with a null name. *)
Theorem acceptPtr_is_untyped_accept
  (World RootSymbolID GCSymbolID : Type) (T : Cpp.CType)
  (ptr : Ref (Cpp.Ptr T)) :
  (forall (a : RootAcceptor World RootSymbolID) (w : World),
      acceptPtr a ptr w
      = accept_void_ptr a (reinterpret_cast (Cpp.Ptr Cpp.void) ptr) w)
  /\ (forall (a : RootAndSlotAcceptorWithNames World RootSymbolID GCSymbolID)
             (name : Name) (w : World),
         acceptPtr_name a ptr name w
         = accept_void_ptr_name a
             (reinterpret_cast (Cpp.Ptr Cpp.void) ptr) name w
         /\ acceptPtr (WithNames_as_RootAndSlotAcceptor a) ptr w
            = accept_void_ptr_name a
                (reinterpret_cast (Cpp.Ptr Cpp.void) ptr) nullptr w)
  /\ (forall (a : RootAcceptor World RootSymbolID) (T' : Cpp.CType)
             (ptr' : Ref (Cpp.Ptr T')) (w : World),
         address ptr' = address ptr ->
         acceptPtr a ptr' w = acceptPtr a ptr w)
  /\ (forall (log : list (Event RootSymbolID GCSymbolID)),
         acceptPtr Recorder ptr log
         = log ++ [Accepted (RawRoot (mkRef (address ptr)))]).
Proof.
  split; [|split; [|split]].
  - reflexivity.
  - intros a name w. split; reflexivity.
  - intros a T' ptr' w Haddr. unfold acceptPtr, reinterpret_cast.
    rewrite Haddr. reflexivity.
  - reflexivity.
Qed.

(** C5.  An acceptor that does not override [beginRootSection] leaves the
    state as it was, whatever the section; one that does not override
    [endRootSection] likewise; and one that does not override
    [provideSnapshot] returns the state it was given whatever the
    callback is, so the callback has not run. *)
Theorem optional_capabilities_default_to_no_op
  (World RootSymbolID GCSymbolID : Type) :
  (forall (a : RootSectionAcceptor World) (section : Section) (w : World),
      beginRootSection_override a = None -> beginRootSection a section w = w)
  /\ (forall (a : RootSectionAcceptor World) (w : World),
         endRootSection_override a = None -> endRootSection a w = w)
  /\ (forall (a : RootAndSlotAcceptorWithNames World RootSymbolID GCSymbolID)
             (func : Ref Cpp.HeapSnapshot -> World -> World) (w : World),
         provideSnapshot_override a = None -> provideSnapshot a func w = w).
Proof.
  split; [|split].
  - intros a section w H. unfold beginRootSection. rewrite H. reflexivity.
  - intros a w H. unfold endRootSection. rewrite H. reflexivity.
  - intros a func w H. unfold provideSnapshot. rewrite H. reflexivity.
Qed.

(** An adapter around the recorder overrides none of the three; a
    callback that would count its invocations in the log is handed to
    it, and the log stays empty. *)
Lemma optional_capabilities_default_to_no_op_witness :
  beginRootSection
    (WithNames_sections (DroppingAcceptor (@Recorder Z Z))) 3 [] = []
  /\ endRootSection
       (WithNames_sections (DroppingAcceptor (@Recorder Z Z))) [] = []
  /\ provideSnapshot (DroppingAcceptor (@Recorder Z Z))
       (fun _ log => record ProvidedSnapshot log) [] = [].
Proof.
  destruct (optional_capabilities_default_to_no_op (list (Event Z Z)) Z Z)
    as [Hb [He Hp]].
  split; [|split].
  - apply Hb. reflexivity.
  - apply He. reflexivity.
  - apply Hp. reflexivity.
Defined.

Lemma visitFields_visit {World RootSymbolID GCSymbolID : Type}
  (A : RootAndSlotAcceptor World RootSymbolID GCSymbolID)
  (fields : list (Field GCSymbolID)) (w : World) :
  visitFields A fields w = visit A (map field_slot fields) w.
Proof.
  unfold visitFields, visit. revert w.
  induction fields as [|f fields IH]; intros w; [reflexivity|].
  cbn [map fold_left]. rewrite IH. destruct f; reflexivity.
Qed.

(** C7.  [SlotAcceptor] leaves open exactly three functions, and a call
    of [accept] on a slot of each of the three kinds inside the heap has
    exactly one candidate, the pure overload for that kind.  The
    producer driven over the fields of any object makes one call per
    field, in the order of the fields, through the overload of the
    field's kind, whatever the tags of the tagged values are and whatever
    the acceptor does: the recorder's log is the list of the fields'
    slots, and two objects that differ in tags only are visited alike.
    For the mock object these are the three calls for [childRef], [val]
    and [key], in this order. *)
Theorem SlotAcceptor_calls_follow_field_order
  (RootSymbolID GCSymbolID : Type) (fields : list (Field GCSymbolID)) :
  (Cpp.unimplemented Cpp.header "SlotAcceptor"
   = map (Cpp.pure "accept") Cpp.heap_slot_kinds
   /\ List.length (Cpp.cmethods Cpp.SlotAcceptor_decl) = 3%nat
   /\ Forall (fun p =>
                Cpp.resolve Cpp.header Cpp.exact_match "SlotAcceptor" "accept"
                  [p]
                = [("SlotAcceptor", Cpp.pure "accept" p)])
             Cpp.heap_slot_kinds)
  /\ (forall log : list (Event RootSymbolID GCSymbolID),
         visitFields Recorder fields log
         = log ++ map (fun f => Accepted (field_slot f)) fields)
  /\ (forall (World : Type)
             (A : RootAndSlotAcceptor World RootSymbolID GCSymbolID)
             (w : World),
         visitFields A fields w = visit A (map field_slot fields) w)
  /\ (forall (World : Type)
             (A : RootAndSlotAcceptor World RootSymbolID GCSymbolID)
             (fields' : list (Field GCSymbolID)) (w : World),
         map (@field_slot RootSymbolID GCSymbolID) fields'
         = map field_slot fields ->
         visitFields A fields' w = visitFields A fields w)
  /\ (forall (childRef : Ref Cpp.GCPointerBase) (val : Ref Cpp.GCHermesValue)
             (val_tag : Tag) (key : GCSymbolID),
         visitFields (@Recorder RootSymbolID GCSymbolID)
           (MockObject childRef val val_tag key) []
         = [ Accepted (PointerField childRef);
             Accepted (ValueField val);
             Accepted (SymbolField key) ]).
Proof.
  split; [|split; [|split; [|split]]].
  - split; [reflexivity|]. split; [reflexivity|].
    unfold Cpp.heap_slot_kinds.
    repeat (apply Forall_cons; [reflexivity|]). apply Forall_nil.
  - intros log. rewrite visitFields_visit, visit_Recorder, map_map.
    reflexivity.
  - intros World A w. apply visitFields_visit.
  - intros World A fields' w Hsame.
    rewrite !visitFields_visit, Hsame. reflexivity.
  - intros childRef val val_tag key. reflexivity.
Qed.

(** C9.  The adapter overrides the six named overloads and nothing else:
    for every wrapped acceptor, [beginRootSection], [endRootSection] and
    [provideSnapshot] on the adapter leave the state as it was, so
    nothing reaches the wrapped acceptor; this is so even for a wrapped
    acceptor that overrides them, such as the recorders, whose own
    functions do write to the log. *)
Theorem DroppingAcceptor_drops_sections_and_snapshot
  (World RootSymbolID GCSymbolID : Type)
  (acceptor : RootAndSlotAcceptor World RootSymbolID GCSymbolID)
  (section : Section) (func : Ref Cpp.HeapSnapshot -> World -> World)
  (w : World) :
  (beginRootSection (WithNames_sections (DroppingAcceptor acceptor)) section w
   = w
   /\ endRootSection (WithNames_sections (DroppingAcceptor acceptor)) w = w
   /\ provideSnapshot (DroppingAcceptor acceptor) func w = w)
  /\ (map Cpp.mname (Cpp.cmethods Cpp.DroppingAcceptor_decl)
      = ["accept"; "accept"; "accept"; "accept"; "accept"; "accept"]
      /\ forall m, In m (Cpp.cmethods Cpp.DroppingAcceptor_decl) ->
                   List.length (Cpp.mparams m) = 2%nat)
  /\ (forall (snapshot : Ref Cpp.HeapSnapshot)
             (log : list (Event RootSymbolID GCSymbolID))
             (g : Ref Cpp.HeapSnapshot
                  -> list (Event RootSymbolID GCSymbolID)
                  -> list (Event RootSymbolID GCSymbolID)),
         let wrapped := WithNames_as_RootAndSlotAcceptor
                          (NamedRecorder snapshot) in
         beginRootSection wrapped section log
         = log ++ [BeganRootSection section]
         /\ endRootSection wrapped log = log ++ [EndedRootSection]
         /\ provideSnapshot (NamedRecorder snapshot) g log
            = g snapshot (log ++ [ProvidedSnapshot])
         /\ beginRootSection
              (WithNames_sections (DroppingAcceptor wrapped)) section log = log
         /\ endRootSection
              (WithNames_sections (DroppingAcceptor wrapped)) log = log
         /\ provideSnapshot (DroppingAcceptor wrapped) g log = log).
Proof.
  split; [|split].
  - repeat split.
  - split; [reflexivity|].
    intros m Hm. cbn in Hm.
    repeat (destruct Hm as [<-|Hm]; [reflexivity|]). destruct Hm.
  - intros snapshot log g. cbn. repeat split.
Qed.

(* ------------------------------------------------------------------ *)
(** ** The root sections *)
(* ------------------------------------------------------------------ *)

Module RootSections_facts.
Import RootSections.

Lemma flat_map_ROOT_SECTION (defs : list string) :
  flat_map ROOT_SECTION defs = defs.
Proof.
  induction defs as [|d defs IH]; cbn; [reflexivity|]. now rewrite IH.
Qed.

Lemma number_from_app (xs ys : list string) (k : Z) :
  number_from k (xs ++ ys)
  = number_from k xs ++ number_from (k + Z.of_nat (List.length xs)) ys.
Proof.
  revert k. induction xs as [|x xs IH]; intros k; cbn [app number_from List.length].
  - now rewrite Z.add_0_r.
  - rewrite IH. do 3 f_equal. lia.
Qed.

Lemma number_from_names (xs : list string) (k : Z) :
  map fst (number_from k xs) = xs.
Proof.
  revert k. induction xs as [|x xs IH]; intros k; cbn; [reflexivity|].
  now rewrite IH.
Qed.

Lemma value_of_number_from_In (xs : list string) (k : Z) (name : string) :
  In name xs ->
  exists v, value_of (number_from k xs) name = Some v
            /\ k <= v < k + Z.of_nat (List.length xs).
Proof.
  revert k. induction xs as [|x xs IH]; intros k Hin; [destruct Hin|].
  cbn [number_from value_of List.length].
  destruct (String.eqb_spec x name) as [->|Hne].
  - exists k. split; [reflexivity | lia].
  - destruct Hin as [Heq|Hin]; [congruence|].
    destruct (IH (k + 1) Hin) as [v [Hv Hr]].
    exists v. split; [exact Hv | lia].
Qed.

Lemma value_of_app_skip (xs : list string) (k : Z) (rest : list (string * Z))
  (name : string) :
  ~ In name xs ->
  value_of (number_from k xs ++ rest) name = value_of rest name.
Proof.
  revert k. induction xs as [|x xs IH]; intros k Hnin; [reflexivity|].
  cbn [number_from app value_of].
  destruct (String.eqb_spec x name) as [->|Hne].
  - exfalso. apply Hnin. now left.
  - apply IH. intros Hin. apply Hnin. now right.
Qed.

Lemma value_of_Some_In (values : list (string * Z)) (name : string) (v : Z) :
  value_of values name = Some v -> In name (map fst values).
Proof.
  induction values as [|[n x] values IH]; cbn; [discriminate|].
  destruct (String.eqb_spec n name) as [->|Hne]; [now left|].
  intros H. right. now apply IH.
Qed.

Lemma value_of_app_found (values rest : list (string * Z)) (name : string)
  (v : Z) :
  value_of values name = Some v -> value_of (values ++ rest) name = Some v.
Proof.
  induction values as [|[n x] values IH]; cbn; [discriminate|].
  destruct (String.eqb n name); [trivial | exact IH].
Qed.

(** C6.  Whatever the definition file lists, provided the enumeration
    is well formed (no enumerator declared twice), the enumerators of
    [Section] are the real sections followed by exactly [NumSections]
    and [InvalidSection]; the real sections are numbered from zero, so
    [NumSections] is the number of real sections and [InvalidSection]
    is one more, different from [NumSections] and from every real
    section; and nothing else is an enumerator. *)
Theorem Section_enumeration_layout (RootSections_def : list string) :
  NoDup (Section_enumerators RootSections_def) ->
  let n := Z.of_nat (List.length RootSections_def) in
  Section_enumerators RootSections_def
  = RootSections_def ++ ["NumSections"; "InvalidSection"]
  /\ Section_values RootSections_def
     = real_sections RootSections_def
       ++ [("NumSections", n); ("InvalidSection", n + 1)]
  /\ map fst (real_sections RootSections_def) = RootSections_def
  /\ ordinal RootSections_def "NumSections" = Some n
  /\ ordinal RootSections_def "InvalidSection" = Some (n + 1)
  /\ (forall name, In name RootSections_def ->
        exists v, ordinal RootSections_def name = Some v
                  /\ 0 <= v < n /\ v <> n /\ v <> n + 1)
  /\ (forall name v, ordinal RootSections_def name = Some v ->
        In name RootSections_def
        \/ name = "NumSections" \/ name = "InvalidSection").
Proof.
  intros Hnd n.
  assert (Henum : Section_enumerators RootSections_def
                  = RootSections_def ++ ["NumSections"; "InvalidSection"]).
  { unfold Section_enumerators. now rewrite flat_map_ROOT_SECTION. }
  assert (Hvals : Section_values RootSections_def
                  = real_sections RootSections_def
                    ++ [("NumSections", n); ("InvalidSection", n + 1)]).
  { unfold Section_values, real_sections. rewrite Henum.
    rewrite flat_map_ROOT_SECTION, number_from_app. reflexivity. }
  rewrite Henum in Hnd.
  assert (Hnum : ~ In "NumSections" RootSections_def).
  { apply (NoDup_app_fresh _ _ _ Hnd). now left. }
  assert (Hinv : ~ In "InvalidSection" RootSections_def).
  { apply (NoDup_app_fresh _ _ _ Hnd). right. now left. }
  assert (Hreal : real_sections RootSections_def
                  = number_from 0 RootSections_def).
  { unfold real_sections. now rewrite flat_map_ROOT_SECTION. }
  split; [exact Henum|]. split; [exact Hvals|].
  split; [rewrite Hreal; apply number_from_names|].
  split; [|split; [|split]].
  - unfold ordinal. rewrite Hvals, Hreal, value_of_app_skip by exact Hnum.
    reflexivity.
  - unfold ordinal. rewrite Hvals, Hreal, value_of_app_skip by exact Hinv.
    reflexivity.
  - intros name Hin.
    destruct (value_of_number_from_In RootSections_def 0 name Hin)
      as [v [Hv Hr]].
    exists v. split; [|fold n in Hr; lia].
    unfold ordinal. rewrite Hvals, Hreal.
    now apply value_of_app_found.
  - intros name v Hv. unfold ordinal in Hv.
    apply value_of_Some_In in Hv.
    unfold Section_values in Hv. rewrite number_from_names, Henum in Hv.
    apply in_app_or in Hv. destruct Hv as [Hv|Hv]; [now left|].
    right. cbn in Hv. intuition.
Qed.

(** The layout for two sections called [Stack] and [Globals]. *)
Lemma Section_enumeration_layout_witness :
  Section_values ["Stack"; "Globals"]
  = [("Stack", 0); ("Globals", 1); ("NumSections", 2); ("InvalidSection", 3)]
  /\ ordinal ["Stack"; "Globals"] "NumSections" = Some 2
  /\ ordinal ["Stack"; "Globals"] "InvalidSection" = Some 3.
Proof.
  assert (Hnd : NoDup (Section_enumerators ["Stack"; "Globals"])).
  { cbn. repeat constructor; cbn; intuition discriminate. }
  destruct (Section_enumeration_layout ["Stack"; "Globals"] Hnd)
    as [_ [Hv [_ [Hn [Hi _]]]]].
  split; [exact Hv|]. split; [exact Hn | exact Hi].
Defined.

End RootSections_facts.

(* ------------------------------------------------------------------ *)
(** ** The declarations *)
(* ------------------------------------------------------------------ *)

Module Cpp_facts.
Import Cpp.

(** *** The base-class relation *)

Lemma derives_names (tbl : ClassTable) (D B : string) :
  derives tbl D B = true -> In B (class_names tbl).
Proof.
  revert D. induction tbl as [|c earlier IH]; intros D; cbn; [discriminate|].
  destruct (String.eqb_spec (cname c) D) as [Hc|Hc].
  - rewrite orb_true_iff, existsb_exists.
    intros [HDB|[X [_ HX]]].
    + apply String.eqb_eq in HDB. left. congruence.
    + right. exact (IH X HX).
  - intros H. right. exact (IH D H).
Qed.

Lemma derives_trans (tbl : ClassTable) :
  NoDup (class_names tbl) ->
  forall D B C,
    derives tbl D B = true -> derives tbl B C = true -> derives tbl D C = true.
Proof.
  induction tbl as [|c earlier IH]; intros Hnd D B C; cbn; [discriminate|].
  inversion Hnd as [|? ? Hfresh Hnd']; subst.
  assert (Hpast : forall X, derives earlier X B = true ->
                            String.eqb (cname c) B = false).
  { intros X HX. apply String.eqb_neq. intros Heq.
    apply Hfresh. rewrite Heq. exact (derives_names _ _ _ HX). }
  destruct (String.eqb_spec (cname c) D) as [Hc|Hc].
  - rewrite orb_true_iff, existsb_exists.
    intros [HDB|[X [HinX HX]]].
    + apply String.eqb_eq in HDB. subst B. subst D.
      rewrite String.eqb_refl. trivial.
    + rewrite (Hpast X HX). intros HBC.
      rewrite orb_true_iff, existsb_exists. right.
      exists X. split; [exact HinX|]. exact (IH Hnd' X B C HX HBC).
  - intros HDB. rewrite (Hpast D HDB). exact (IH Hnd' D B C HDB).
Qed.

Lemma derives_skip (pre tbl : ClassTable) (D B : string) :
  ~ In D (class_names pre) -> derives (pre ++ tbl) D B = derives tbl D B.
Proof.
  induction pre as [|c pre IH]; cbn; intros Hnin; [reflexivity|].
  destruct (String.eqb_spec (cname c) D) as [Hc|Hc].
  - exfalso. apply Hnin. now left.
  - apply IH. intros Hin. apply Hnin. now right.
Qed.

(** A class of the header has in a program the bases it has in the
    header. *)
Lemma derives_header (user : ClassTable) (D B : string) :
  NoDup (class_names (program user)) ->
  In D (class_names header) ->
  derives (program user) D B = derives header D B.
Proof.
  intros Hnd HD. unfold program. apply derives_skip.
  unfold program, class_names in Hnd. rewrite map_app in Hnd.
  exact (NoDup_app_fresh _ _ _ Hnd HD).
Qed.

Lemma RootAndSlotAcceptor_capabilities (user : ClassTable) (D : string) :
  NoDup (class_names (program user)) ->
  derives (program user) D "RootAndSlotAcceptor" = true ->
  derives (program user) D "RootAcceptor" = true
  /\ derives (program user) D "SlotAcceptor" = true.
Proof.
  intros Hnd HD. split.
  - apply (derives_trans _ Hnd D "RootAndSlotAcceptor" "RootAcceptor" HD).
    rewrite derives_header by (trivial; cbn; tauto). reflexivity.
  - apply (derives_trans _ Hnd D "RootAndSlotAcceptor" "SlotAcceptor" HD).
    rewrite derives_header by (trivial; cbn; tauto). reflexivity.
Qed.

(** C4.  In every program, the instantiation of [DroppingAcceptor] over
    an argument yields the class only if the argument is a class with
    [RootAndSlotAcceptor] as itself or a base, and then it has both
    [RootAcceptor] and [SlotAcceptor] as bases; over every other
    argument, in particular one that lacks either of the two, the
    outcome is the failed static assertion with its message.  The
    outcome is decided from the class table alone. *)
Theorem DroppingAcceptor_static_capability_check
  (user : ClassTable) (Acceptor : TemplateArg) :
  NoDup (class_names (program user)) ->
  (forall c, DroppingAcceptor_instantiate (program user) Acceptor
             = instantiated c ->
        c = DroppingAcceptor_decl
        /\ is_base_of (program user) "RootAndSlotAcceptor" Acceptor = true
        /\ is_base_of (program user) "RootAcceptor" Acceptor = true
        /\ is_base_of (program user) "SlotAcceptor" Acceptor = true)
  /\ (is_base_of (program user) "RootAndSlotAcceptor" Acceptor = true ->
      DroppingAcceptor_instantiate (program user) Acceptor
      = instantiated DroppingAcceptor_decl)
  /\ (is_base_of (program user) "RootAndSlotAcceptor" Acceptor = false
      \/ is_base_of (program user) "RootAcceptor" Acceptor = false
      \/ is_base_of (program user) "SlotAcceptor" Acceptor = false ->
      DroppingAcceptor_instantiate (program user) Acceptor
      = static_assert_failed
          "Can only use this with a subclass of RootAndSlotAcceptor").
Proof.
  intros Hnd.
  assert (Hcap : is_base_of (program user) "RootAndSlotAcceptor" Acceptor
                 = true ->
                 is_base_of (program user) "RootAcceptor" Acceptor = true
                 /\ is_base_of (program user) "SlotAcceptor" Acceptor = true).
  { destruct Acceptor as [d|T]; cbn [is_base_of]; [|discriminate].
    apply RootAndSlotAcceptor_capabilities. exact Hnd. }
  unfold DroppingAcceptor_instantiate.
  destruct (is_base_of (program user) "RootAndSlotAcceptor" Acceptor) eqn:Hb.
  - destruct (Hcap eq_refl) as [Hr Hs]. split; [|split].
    + intros c Hc. inversion Hc. auto.
    + reflexivity.
    + rewrite Hr, Hs. intros [H|[H|H]]; discriminate.
  - split; [|split].
    + intros c Hc. discriminate.
    + discriminate.
    + reflexivity.
Qed.

(** In the sample program the marker is accepted; the class without
    bases, an [int] and the class that derives from [RootAcceptor] and
    [SlotAcceptor] side by side are refused. *)
Lemma DroppingAcceptor_static_capability_check_witness :
  DroppingAcceptor_instantiate (program sample_user) (ClassType "Marker")
  = instantiated DroppingAcceptor_decl
  /\ DroppingAcceptor_instantiate (program sample_user) (ClassType "Counter")
     = static_assert_failed
         "Can only use this with a subclass of RootAndSlotAcceptor"
  /\ DroppingAcceptor_instantiate (program sample_user)
       (NonClassType (Fundamental "int"))
     = static_assert_failed
         "Can only use this with a subclass of RootAndSlotAcceptor"
  /\ DroppingAcceptor_instantiate (program sample_user)
       (ClassType "SideBySide")
     = static_assert_failed
         "Can only use this with a subclass of RootAndSlotAcceptor".
Proof.
  assert (Hnd : NoDup (class_names (program sample_user))).
  { cbn. repeat constructor; cbn; intuition discriminate. }
  split; [|split; [|split]].
  - apply (DroppingAcceptor_static_capability_check
             sample_user (ClassType "Marker") Hnd). reflexivity.
  - apply (DroppingAcceptor_static_capability_check
             sample_user (ClassType "Counter") Hnd). left. reflexivity.
  - apply (DroppingAcceptor_static_capability_check
             sample_user (NonClassType (Fundamental "int")) Hnd).
    left. reflexivity.
  - apply (DroppingAcceptor_static_capability_check
             sample_user (ClassType "SideBySide") Hnd). left. reflexivity.
Defined.

(** *** Member lookup *)

Lemma brought_in_In (results : list Lookup) (ds : list (string * Method))
  (d : string * Method) :
  brought_in results = Declarations ds -> In d ds ->
  exists ds', In (Declarations ds') results /\ In d ds'.
Proof.
  revert ds. induction results as [|r rest IH]; intros ds; cbn [brought_in].
  - intros H Hd. inversion H. subst ds. destruct Hd.
  - destruct r as [found|]; [|discriminate].
    destruct (brought_in rest) as [ds'|]; [|discriminate].
    intros H Hd. inversion H. subst ds. apply in_app_or in Hd.
    destruct Hd as [Hd|Hd].
    + exists found. split; [now left | exact Hd].
    + destruct (IH ds' eq_refl Hd) as [ds'' [Hin Hd']].
      exists ds''. split; [now right | exact Hd'].
Qed.

Lemma merged_In (results : list Lookup) (ds : list (string * Method))
  (d : string * Method) :
  merged results = Declarations ds -> In d ds ->
  exists ds', In (Declarations ds') results /\ In d ds'.
Proof.
  revert ds. induction results as [|r rest IH]; intros ds; cbn [merged].
  - intros H Hd. inversion H. subst ds. destruct Hd.
  - destruct r as [found|]; [|discriminate].
    destruct (merged rest) as [ds'|].
    + destruct found as [|x found]; [|destruct ds' as [|y ds']].
      * intros H Hd. inversion H. subst ds.
        destruct (IH ds' eq_refl Hd) as [ds'' [Hin Hd']].
        exists ds''. split; [now right | exact Hd'].
      * intros H Hd. inversion H. subst ds.
        exists (x :: found). split; [now left | exact Hd].
      * discriminate.
    + destruct found; discriminate.
Qed.

Lemma lookup_named (tbl : ClassTable) (C n : string)
  (ds : list (string * Method)) (d : string * Method) :
  lookup tbl C n = Declarations ds -> In d ds -> mname (snd d) = n.
Proof.
  revert C ds. induction tbl as [|c earlier IH]; intros C ds; cbn [lookup].
  - intros H Hd. inversion H. subst ds. destruct Hd.
  - destruct (String.eqb (cname c) C); [|apply IH].
    set (own := map (pair C) (filter (named n) (cmethods c))).
    destruct (brought_in _) as [used|] eqn:Hused; [|discriminate].
    assert (Hown : In d own -> mname (snd d) = n).
    { unfold own. rewrite in_map_iff. intros [m [<- Hm]].
      apply filter_In in Hm. destruct Hm as [_ Hm].
      apply String.eqb_eq in Hm. exact Hm. }
    assert (Hbrought : In d used -> mname (snd d) = n).
    { intros Hd. destruct (brought_in_In _ _ _ Hused Hd) as [ds' [Hin Hd']].
      apply in_map_iff in Hin. destruct Hin as [u [Hu _]].
      exact (IH _ _ Hu Hd'). }
    destruct (own ++ filter (fun d => negb (hidden_by own d)) used)
      as [|x found] eqn:Hfound.
    + intros Hm Hd. destruct (merged_In _ _ _ Hm Hd) as [ds' [Hin Hd']].
      apply in_map_iff in Hin. destruct Hin as [B [HB _]].
      exact (IH _ _ HB Hd').
    + intros H Hd. inversion H. subst ds. rewrite <- Hfound in Hd.
      apply in_app_or in Hd. destruct Hd as [Hd|Hd]; [exact (Hown Hd)|].
      apply filter_In in Hd. exact (Hbrought (proj1 Hd)).
Qed.

(** C8.  The weak-root operation of [WeakRootAcceptor] is its one member
    named [acceptWeak].  In every program, for every class and every
    argument list, and whatever conversions exist between the argument
    and parameter types, each declaration the call [x.acceptWeak(args)]
    can resolve to is named [acceptWeak], hence is none of the members
    named [accept] of any class.  Through [WeakRootAcceptor], through a
    class that derives from [SlotAcceptor] and [WeakRootAcceptor] and
    inherits the function, and through one that overrides it, a weak
    root resolves to that one declaration, even with every conversion
    allowed. *)
Theorem acceptWeak_resolves_to_acceptWeak_only
  (user : ClassTable) (conv : ParamType -> ParamType -> bool)
  (C : string) (args : list ParamType) :
  (forall d, In d (resolve (program user) conv C "acceptWeak" args) ->
     mname (snd d) = "acceptWeak"
     /\ forall c m, In c (program user) -> In m (cmethods c) ->
                    mname m = "accept" -> snd d <> m)
  /\ filter (named "acceptWeak") (flat_map cmethods header)
     = [ pure "acceptWeak" (ByRef WeakRootBase) ]
  /\ resolve header any_conversion "WeakRootAcceptor" "acceptWeak"
       [ByRef WeakRootBase]
     = [ ("WeakRootAcceptor", pure "acceptWeak" (ByRef WeakRootBase)) ]
  /\ resolve (program [WeakSlots_decl]) any_conversion "WeakSlots"
       "acceptWeak" [ByRef WeakRootBase]
     = [ ("WeakRootAcceptor", pure "acceptWeak" (ByRef WeakRootBase)) ]
  /\ resolve (program sample_user) any_conversion "WeakMarker"
       "acceptWeak" [ByRef WeakRootBase]
     = [ ("WeakMarker", overriding "acceptWeak" (ByRef WeakRootBase)) ].
Proof.
  split; [|repeat split].
  intros d Hd. unfold resolve in Hd.
  destruct (lookup (program user) C "acceptWeak") as [found|] eqn:Hl;
    [|destruct Hd].
  apply filter_In in Hd. destruct Hd as [Hd _].
  apply (lookup_named _ _ _ _ _ Hl) in Hd.
  split; [exact Hd|].
  intros c m _ _ Hm Heq. rewrite Heq, Hm in Hd. discriminate.
Qed.

(** Had the operation been an overload of [accept], a weak root given to
    a class with both families would have the strong overloads among its
    candidates as soon as the conversions exist. *)
Example accept_overloads_are_candidates_together :
  map (fun d => mparams (snd d))
      (resolve (program sample_user) any_conversion "WeakMarker" "accept"
         [ByRef WeakRootBase])
  = [ [ByRef GCPointerBase]; [ByRef GCHermesValue]; [ByValue GCSymbolID];
      [ByRef WeakRefBase] ].
Proof. reflexivity. Qed.

End Cpp_facts.

(* ================================================================== *)
(** * Part VI.  Further properties *)
(* ================================================================== *)

(* ------------------------------------------------------------------ *)
(** ** The adapter as an acceptor *)
(* ------------------------------------------------------------------ *)

Section AdapterFacts.

Context {World RootSymbolID GCSymbolID : Type}.

Implicit Types (acceptor : RootAndSlotAcceptor World RootSymbolID GCSymbolID)
  (w : World).

(** X1.  Seen again as an unnamed acceptor, the adapter around an
    acceptor is that acceptor with the section overrides removed: every
    unnamed [accept], every sequence of them, and [acceptPtr] with or
    without a name give the result of the wrapped acceptor, and when
    the wrapped acceptor overrides neither section function the two
    are the same object. *)
Theorem DroppingAcceptor_unnamed_round_trip acceptor :
  WithNames_as_RootAndSlotAcceptor (DroppingAcceptor acceptor)
  = {| as_RootAcceptor :=
         {| RootAcceptor_sections := no_section_overrides;
            accept_void_ptr := accept_void_ptr acceptor;
            accept_PinnedHermesValue := accept_PinnedHermesValue acceptor;
            accept_RootSymbolID := accept_RootSymbolID acceptor |};
       as_SlotAcceptor := as_SlotAcceptor _ _ _ acceptor |}
  /\ (RootAcceptor_sections _ _ acceptor = no_section_overrides ->
      WithNames_as_RootAndSlotAcceptor (DroppingAcceptor acceptor) = acceptor)
  /\ (forall (slots : list (Slot RootSymbolID GCSymbolID)) w,
         visit (WithNames_as_RootAndSlotAcceptor (DroppingAcceptor acceptor))
               slots w
         = visit acceptor slots w)
  /\ (forall (T : Cpp.CType) (ptr : Ref (Cpp.Ptr T)) (name : Name) w,
         acceptPtr_name (DroppingAcceptor acceptor) ptr name w
         = acceptPtr acceptor ptr w
         /\ acceptPtr (WithNames_as_RootAndSlotAcceptor
                         (DroppingAcceptor acceptor)) ptr w
            = acceptPtr acceptor ptr w).
Proof.
  split; [|split; [|split]].
  - destruct acceptor as [[sections f1 f2 f3] [g1 g2 g3]]. reflexivity.
  - destruct acceptor as [[sections f1 f2 f3] [g1 g2 g3]]. cbn.
    intros ->. reflexivity.
  - intros slots w. rewrite visit_sealed, visit_dropping, map_map. cbn.
    now rewrite map_id.
  - intros T ptr name w. split; reflexivity.
Qed.

(** X2.  Wrapping is idempotent: the adapter around an adapter is the
    adapter around the acceptor it wraps. *)
Theorem DroppingAcceptor_idempotent acceptor :
  DroppingAcceptor (WithNames_as_RootAndSlotAcceptor (DroppingAcceptor acceptor))
  = DroppingAcceptor acceptor.
Proof. reflexivity. Qed.

Lemma traverse_DroppingAcceptor acceptor
  (calls : list (Call World RootSymbolID GCSymbolID)) w :
  traverse (DroppingAcceptor acceptor) calls w
  = visit acceptor (accepted_slots calls) w.
Proof.
  unfold traverse, visit. revert w.
  induction calls as [|c calls IH]; intros w; [reflexivity|].
  destruct c as [section| |s name|func]; cbn [fold_left accepted_slots perform].
  - apply IH.
  - apply IH.
  - rewrite dropping_accept. apply IH.
  - apply IH.
Qed.

End AdapterFacts.

(** X3.  A whole traversal through the adapter, with section brackets,
    named visits and snapshot requests in any order and number, leaves
    the state that the visits alone, unnamed and in the same order,
    leave on the wrapped acceptor; on the recording acceptor, which
    does record sections, the log holds the visits only. *)
Theorem traverse_DroppingAcceptor_is_visit
  (World RootSymbolID GCSymbolID : Type)
  (acceptor : RootAndSlotAcceptor World RootSymbolID GCSymbolID)
  (calls : list (Call World RootSymbolID GCSymbolID)) (w : World) :
  traverse (DroppingAcceptor acceptor) calls w
  = visit acceptor (accepted_slots calls) w
  /\ forall (calls' : list (Call (list (Event RootSymbolID GCSymbolID))
                                 RootSymbolID GCSymbolID))
            (log : list (Event RootSymbolID GCSymbolID)),
       traverse (DroppingAcceptor Recorder) calls' log
       = log ++ map Accepted (accepted_slots calls').
Proof.
  split.
  - apply traverse_DroppingAcceptor.
  - intros calls' log. rewrite traverse_DroppingAcceptor. apply visit_Recorder.
Qed.

Example traverse_sections_through_adapter :
  traverse (DroppingAcceptor (@Recorder Z Z))
    [ CallBeginRootSection 0;
      CallAccept (RawRoot (mkRef 16)) (Some "a");
      CallAccept (RawRoot (mkRef 24)) nullptr;
      CallEndRootSection;
      CallProvideSnapshot (fun _ log => record ProvidedSnapshot log);
      CallBeginRootSection 1;
      CallAccept (PinnedValue (mkRef 64)) (Some "b");
      CallEndRootSection ] []
  = [ Accepted (RawRoot (mkRef 16));
      Accepted (RawRoot (mkRef 24));
      Accepted (PinnedValue (mkRef 64)) ]
  /\ traverse (NamedRecorder (mkRef 0))
       [ CallBeginRootSection 0;
         CallAccept (@RawRoot Z Z (mkRef 16)) (Some "a");
         CallEndRootSection ] []
     = [ BeganRootSection 0;
         AcceptedNamed (RawRoot (mkRef 16)) (Some "a");
         EndedRootSection ].
Proof. split; reflexivity. Qed.

(* ------------------------------------------------------------------ *)
(** ** Final functions and abstract classes *)
(* ------------------------------------------------------------------ *)

Module Cpp_classes.
Import Cpp.

Lemma final_methods_skip (pre tbl : ClassTable) (C : string) :
  ~ In C (class_names pre) ->
  final_methods (pre ++ tbl) C = final_methods tbl C.
Proof.
  induction pre as [|c pre IH]; cbn; intros Hnin; [reflexivity|].
  destruct (String.eqb_spec (cname c) C) as [Hc|Hc].
  - exfalso. apply Hnin. now left.
  - apply IH. intros Hin. apply Hnin. now right.
Qed.

Lemma unimplemented_skip (pre tbl : ClassTable) (C : string) :
  ~ In C (class_names pre) ->
  unimplemented (pre ++ tbl) C = unimplemented tbl C.
Proof.
  induction pre as [|c pre IH]; cbn; intros Hnin; [reflexivity|].
  destruct (String.eqb_spec (cname c) C) as [Hc|Hc].
  - exfalso. apply Hnin. now left.
  - apply IH. intros Hin. apply Hnin. now right.
Qed.

(** A final function of a class is a final function of every class
    derived from it. *)
Lemma final_methods_inherited (tbl : ClassTable) :
  NoDup (class_names tbl) ->
  forall D B m,
    derives tbl D B = true ->
    In m (final_methods tbl B) -> In m (final_methods tbl D).
Proof.
  induction tbl as [|c earlier IH]; intros Hnd D B m; cbn; [discriminate|].
  inversion Hnd as [|? ? Hfresh Hnd']; subst.
  assert (Hpast : forall X, derives earlier X B = true ->
                            String.eqb (cname c) B = false).
  { intros X HX. apply String.eqb_neq. intros Heq.
    apply Hfresh. rewrite Heq. exact (Cpp_facts.derives_names _ _ _ HX). }
  destruct (String.eqb_spec (cname c) D) as [Hc|Hc].
  - rewrite orb_true_iff, existsb_exists.
    intros [HDB|[X [HinX HX]]].
    + apply String.eqb_eq in HDB. subst B. subst D.
      rewrite String.eqb_refl. trivial.
    + rewrite (Hpast X HX). intros Hm.
      apply in_or_app. right. apply in_flat_map.
      exists X. split; [exact HinX|]. exact (IH Hnd' X B m HX Hm).
  - intros HDB. rewrite (Hpast D HDB). exact (IH Hnd' D B m HDB).
Qed.

Lemma same_signature_intro (m m' : Method) :
  mname m = mname m' ->
  map adjusted (mparams m) = map adjusted (mparams m') ->
  mcv m = mcv m' -> mref m = mref m' -> mtemplate m = mtemplate m' ->
  same_signature m m' = true.
Proof.
  intros Hn Hp Hcv Href Ht. unfold same_signature, same_params.
  rewrite Hn, Hp, Hcv, Href, Ht, String.eqb_refl.
  destruct (list_eq_dec ParamType_eq_dec _ _); [|congruence].
  destruct (list_eq_dec string_dec _ _); [|congruence].
  destruct (mcv m'), (mref m'); reflexivity.
Qed.

Lemma same_signature_elim (m m' : Method) :
  same_signature m m' = true ->
  mname m = mname m'
  /\ map adjusted (mparams m) = map adjusted (mparams m')
  /\ mcv m = mcv m' /\ mref m = mref m' /\ mtemplate m = mtemplate m'.
Proof.
  unfold same_signature, same_params. rewrite !andb_true_iff.
  intros [[[[Hn Hp] Hcv] Href] Ht].
  apply String.eqb_eq in Hn.
  destruct (list_eq_dec ParamType_eq_dec _ _) as [Hp'|]; [|discriminate].
  destruct (list_eq_dec string_dec _ _) as [Ht'|]; [|discriminate].
  repeat split; try assumption.
  - destruct (mcv m), (mcv m'); (reflexivity || discriminate).
  - destruct (mref m), (mref m'); (reflexivity || discriminate).
Qed.

Lemma final_methods_WithNames (user : ClassTable) :
  NoDup (class_names (program user)) ->
  final_methods (program user) "RootAndSlotAcceptorWithNames"
  = map (sealed "accept") slot_kinds.
Proof.
  intros Hnd. unfold program. rewrite final_methods_skip; [reflexivity|].
  unfold program, class_names in Hnd. rewrite map_app in Hnd.
  apply (NoDup_app_fresh _ _ _ Hnd). cbn. tauto.
Qed.

(** X4.  The header itself breaks no [final].  In every program, a
    class with a base that is, or derives from,
    [RootAndSlotAcceptorWithNames] is refused as soon as it declares a
    member function [accept] that is no template, has no cv- or
    ref-qualifier and takes just one of the six kinds of slot (a
    [const] at the top of the parameter not counting), whatever else it
    declares; a class that derives from it directly overrides a final
    function in this way only, so a [const]-qualified [accept] beside
    the final one is let through; and every class with
    [DroppingAcceptor] as a base is refused. *)
Theorem unnamed_accept_cannot_be_overridden
  (user : ClassTable) (c : ClassDecl) :
  NoDup (class_names (program user)) ->
  well_formed header = true
  /\ (forall B m p,
         In B (cbases c) ->
         derives (program user) B "RootAndSlotAcceptorWithNames" = true ->
         In m (cmethods c) -> In p slot_kinds ->
         mname m = "accept" -> map adjusted (mparams m) = [p] ->
         mcv m = cv_none -> mref m = ref_none -> mtemplate m = [] ->
         overrides_final (program user) c = true
         /\ ill_formed (program user) c = true)
  /\ (cbases c = ["RootAndSlotAcceptorWithNames"] ->
      overrides_final (program user) c = true ->
      exists m p,
        In m (cmethods c) /\ In p slot_kinds
        /\ mname m = "accept" /\ map adjusted (mparams m) = [p]
        /\ mcv m = cv_none /\ mref m = ref_none /\ mtemplate m = [])
  /\ (In "DroppingAcceptor" (cbases c) -> ill_formed (program user) c = true).
Proof.
  intros Hnd. split; [reflexivity|]. split; [|split].
  - intros B m p HB Hder Hm Hp Hname Hparams Hcv Href Ht.
    assert (Hov : overrides_final (program user) c = true).
    { unfold overrides_final. apply existsb_exists.
      exists m. split; [exact Hm|]. apply existsb_exists.
      exists (sealed "accept" p). split.
      - apply in_flat_map. exists B. split; [exact HB|].
        apply (final_methods_inherited _ Hnd B
                 "RootAndSlotAcceptorWithNames" _ Hder).
        rewrite final_methods_WithNames by exact Hnd.
        apply in_map. exact Hp.
      - apply same_signature_intro; cbn; try assumption.
        rewrite Hparams. cbn in Hp.
        repeat (destruct Hp as [<-|Hp]; [reflexivity|]). destruct Hp. }
    split; [exact Hov|]. unfold ill_formed. rewrite Hov. apply orb_true_r.
  - intros Hbases Hov. unfold overrides_final in Hov.
    apply existsb_exists in Hov. destruct Hov as [m [Hm Hov]].
    apply existsb_exists in Hov. destruct Hov as [f [Hf Hsame]].
    rewrite Hbases in Hf. cbn [flat_map] in Hf. rewrite app_nil_r in Hf.
    rewrite final_methods_WithNames in Hf by exact Hnd.
    apply in_map_iff in Hf. destruct Hf as [p [<- Hp]].
    apply same_signature_elim in Hsame.
    destruct Hsame as [Hn [Hps [Hcv [Href Ht]]]].
    exists m, p. repeat split; try assumption.
    rewrite Hps. cbn in Hp. cbn.
    repeat (destruct Hp as [<-|Hp]; [reflexivity|]). destruct Hp.
  - intros Hin. unfold ill_formed.
    assert (Hf : derives_from_final (program user) c = true).
    { unfold derives_from_final. apply existsb_exists.
      exists "DroppingAcceptor". split; [exact Hin|].
      unfold class_is_final, program. rewrite existsb_app.
      apply orb_true_iff. right. reflexivity. }
    rewrite Hf. reflexivity.
Qed.

(** The class [Unsealing], which declares [accept(void *&)] under
    [RootAndSlotAcceptorWithNames], is refused in the sample program;
    the class [ConstAccept], whose [accept(void *&)] is [const], is
    not. *)
Lemma unnamed_accept_cannot_be_overridden_witness :
  (overrides_final (program sample_user) Unsealing_decl = true
   /\ ill_formed (program sample_user) Unsealing_decl = true)
  /\ ill_formed (program sample_user) ConstAccept_decl = false.
Proof.
  assert (Hnd : NoDup (class_names (program sample_user))).
  { cbn. repeat constructor; cbn; intuition discriminate. }
  split; [|reflexivity].
  destruct (unnamed_accept_cannot_be_overridden sample_user Unsealing_decl Hnd)
    as [_ [H _]].
  apply (H "RootAndSlotAcceptorWithNames"
           (overriding "accept" (ByRef (Ptr void))) (ByRef (Ptr void)));
    cbn; tauto.
Defined.

(** X5.  A class whose one base is [RootAndSlotAcceptorWithNames] is
    left with exactly the pure functions it declares itself and those
    of the six named overloads for which it declares no function of the
    same signature: the unnamed overloads ask nothing of it.  So
    [DroppingAcceptor], which declares the six, is not abstract, while
    [RootAndSlotAcceptor] leaves the six unnamed overloads open. *)
Theorem named_overloads_are_the_only_obligation
  (user : ClassTable) (c : ClassDecl) :
  ~ In "RootAndSlotAcceptorWithNames" (class_names user) ->
  cbases c = ["RootAndSlotAcceptorWithNames"] ->
  unimplemented (program (c :: user)) (cname c)
  = filter is_pure (cmethods c)
    ++ filter (fun m => negb (existsb (same_signature m) (cmethods c)))
              (map (pure_named "accept") slot_kinds)
  /\ unimplemented header "DroppingAcceptor" = []
  /\ unimplemented header "RootAndSlotAcceptor"
     = map (pure "accept") slot_kinds.
Proof.
  intros Hfresh Hbases. split; [|split; reflexivity].
  unfold program. cbn [app unimplemented].
  rewrite String.eqb_refl, Hbases. cbn [flat_map].
  rewrite app_nil_r, unimplemented_skip by exact Hfresh.
  reflexivity.
Qed.

(** [NamedMarker] overrides the six named overloads and is not
    abstract, and neither is [ConstNameMarker], whose overriders take
    the name as [const char *const]; [Unsealing] overrides none of the
    six, and the [const] function of [ConstAccept] is no overrider. *)
Lemma named_overloads_are_the_only_obligation_witness :
  unimplemented (program (NamedMarker_decl :: sample_user)) "NamedMarker" = []
  /\ unimplemented (program (ConstNameMarker_decl :: sample_user))
       "ConstNameMarker" = []
  /\ unimplemented (program (Unsealing_decl :: sample_user)) "Unsealing"
     = map (pure_named "accept") slot_kinds
  /\ unimplemented (program (ConstAccept_decl :: sample_user)) "ConstAccept"
     = map (pure_named "accept") slot_kinds.
Proof.
  assert (Hfresh : ~ In "RootAndSlotAcceptorWithNames"
                        (class_names sample_user)).
  { cbn. intuition discriminate. }
  split; [|split; [|split]].
  - exact (proj1 (named_overloads_are_the_only_obligation
                    sample_user NamedMarker_decl Hfresh eq_refl)).
  - exact (proj1 (named_overloads_are_the_only_obligation
                    sample_user ConstNameMarker_decl Hfresh eq_refl)).
  - exact (proj1 (named_overloads_are_the_only_obligation
                    sample_user Unsealing_decl Hfresh eq_refl)).
  - exact (proj1 (named_overloads_are_the_only_obligation
                    sample_user ConstAccept_decl Hfresh eq_refl)).
Defined.

(** *** Ambiguous lookups *)







(** X11.  A class whose one base is [WeakRootAcceptor] is left with the
    pure functions it declares itself and with those of
    [acceptWeak(WeakRootBase &)] and [accept(WeakRefBase &)] it does not
    declare: both weak operations are asked of it, the two section
    functions never are. *)
Theorem weak_root_obligations (user : ClassTable) (c : ClassDecl) :
  ~ In "WeakRootAcceptor" (class_names user) ->
  cbases c = ["WeakRootAcceptor"] ->
  unimplemented (program (c :: user)) (cname c)
  = filter is_pure (cmethods c)
    ++ filter (fun m => negb (existsb (same_signature m) (cmethods c)))
              [ pure "acceptWeak" (ByRef WeakRootBase);
                pure "accept" (ByRef WeakRefBase) ]
  /\ unimplemented header "RootSectionAcceptor" = [].
Proof.
  intros Hfresh Hbases. split; [|reflexivity].
  unfold program. cbn [app unimplemented].
  rewrite String.eqb_refl, Hbases. cbn [flat_map].
  rewrite app_nil_r, unimplemented_skip by exact Hfresh.
  reflexivity.
Qed.

(** A class that overrides [acceptWeak] alone still lacks
    [accept(WeakRefBase &)]. *)
Lemma weak_root_obligations_witness :
  unimplemented (program (WeakOnly_decl :: sample_user)) "WeakOnly"
  = [ pure "accept" (ByRef WeakRefBase) ].
Proof.
  assert (Hfresh : ~ In "WeakRootAcceptor" (class_names sample_user)).
  { cbn. intuition discriminate. }
  exact (proj1 (weak_root_obligations sample_user WeakOnly_decl
                  Hfresh eq_refl)).
Defined.

End Cpp_classes.

(* ------------------------------------------------------------------ *)
(** ** The numbering of the root sections *)
(* ------------------------------------------------------------------ *)

Module RootSections_numbering.
Import RootSections.

Lemma value_of_position (names : list string) (k : Z) (name : string) (v : Z) :
  value_of (number_from k names) name = Some v ->
  exists i, nth_error names i = Some name /\ v = k + Z.of_nat i.
Proof.
  revert k. induction names as [|x xs IH]; intros k; cbn; [discriminate|].
  destruct (String.eqb_spec x name) as [->|Hne].
  - intros H. inversion H. subst v. exists 0%nat. split; [reflexivity | lia].
  - intros H. destruct (IH (k + 1) H) as [i [Hi Hv]].
    exists (S i). split; [exact Hi | lia].
Qed.

Lemma position_value_of (names : list string) (k : Z) (name : string)
  (i : nat) :
  NoDup names ->
  nth_error names i = Some name ->
  value_of (number_from k names) name = Some (k + Z.of_nat i).
Proof.
  revert k i. induction names as [|x xs IH]; intros k i Hnd;
    [destruct i; discriminate|].
  inversion Hnd as [|? ? Hfresh Hnd']; subst.
  destruct i as [|j]; cbn [nth_error number_from value_of].
  - intros H. inversion H. subst x. rewrite String.eqb_refl.
    f_equal. lia.
  - intros H. destruct (String.eqb_spec x name) as [->|Hne].
    + exfalso. apply Hfresh. exact (nth_error_In _ _ H).
    + rewrite (IH (k + 1) j Hnd' H). f_equal. lia.
Qed.

(** X7.  In a well-formed enumeration the value of an enumerator of
    [Section] is its position in the list of enumerators, counted from
    zero: two enumerators with the same value are the same, and every
    number below [NumSections] is the value of exactly one real
    section, so the values of the real sections index an array of
    [NumSections] entries without gap or clash. *)
Theorem Section_ordinal_is_position (RootSections_def : list string) :
  NoDup (Section_enumerators RootSections_def) ->
  (forall name v,
      ordinal RootSections_def name = Some v
      <-> exists i, nth_error (Section_enumerators RootSections_def) i
                    = Some name /\ v = Z.of_nat i)
  /\ (forall a b v,
         ordinal RootSections_def a = Some v ->
         ordinal RootSections_def b = Some v -> a = b)
  /\ (forall v, 0 <= v < Z.of_nat (List.length RootSections_def) ->
        exists name, In name RootSections_def
                     /\ ordinal RootSections_def name = Some v
                     /\ forall other, ordinal RootSections_def other = Some v ->
                                      other = name).
Proof.
  intros Hnd.
  assert (Hiff : forall name v,
             ordinal RootSections_def name = Some v
             <-> exists i, nth_error (Section_enumerators RootSections_def) i
                           = Some name /\ v = Z.of_nat i).
  { intros name v. unfold ordinal, Section_values. split.
    - intros H. apply value_of_position in H. exact H.
    - intros [i [Hi ->]].
      exact (position_value_of _ 0 name i Hnd Hi). }
  assert (Hinj : forall a b v,
             ordinal RootSections_def a = Some v ->
             ordinal RootSections_def b = Some v -> a = b).
  { intros a b v Ha Hb.
    apply Hiff in Ha. apply Hiff in Hb.
    destruct Ha as [i [Hi Hvi]]. destruct Hb as [j [Hj Hvj]].
    assert (i = j) by lia. subst j. congruence. }
  split; [exact Hiff|]. split; [exact Hinj|].
  intros v Hv.
  assert (Hlt : (Z.to_nat v < List.length RootSections_def)%nat) by lia.
  destruct (nth_error RootSections_def (Z.to_nat v)) as [name|] eqn:Hnth.
  - exists name. split; [exact (nth_error_In _ _ Hnth)|].
    assert (Hord : ordinal RootSections_def name = Some v).
    { apply Hiff. exists (Z.to_nat v). split; [|lia].
      unfold Section_enumerators.
      rewrite RootSections_facts.flat_map_ROOT_SECTION.
      rewrite nth_error_app1 by exact Hlt. exact Hnth. }
    split; [exact Hord|].
    intros other Hother. exact (Hinj other name v Hother Hord).
  - exfalso. apply nth_error_Some in Hlt. exact (Hlt Hnth).
Qed.

(** With the sections [Stack] and [Globals], value 1 is [Globals] and
    nothing else. *)
Lemma Section_ordinal_is_position_witness :
  exists name, In name ["Stack"; "Globals"]
               /\ ordinal ["Stack"; "Globals"] name = Some 1
               /\ forall other, ordinal ["Stack"; "Globals"] other = Some 1 ->
                                other = name.
Proof.
  assert (Hnd : NoDup (Section_enumerators ["Stack"; "Globals"])).
  { cbn. repeat constructor; cbn; intuition discriminate. }
  apply (Section_ordinal_is_position ["Stack"; "Globals"] Hnd). cbn. lia.
Defined.

End RootSections_numbering.

(* ------------------------------------------------------------------ *)
(** ** Sets of experiments as flags *)
(* ------------------------------------------------------------------ *)

Module experiments_sets.
Import experiments experiments_facts.

Lemma bit_not_Default (e : Experiment) (k : Z) :
  bit e = Some k -> e <> Default.
Proof. intros H ->. discriminate. Qed.

(** X9.  Two collections of experiments have the same flags exactly when
    they have the same experiments other than [Default]: order and
    repetition do not show, and nothing else is lost. *)
Theorem flags_of_same_iff_same_experiments (a b : list Experiment) :
  flags_of a = flags_of b
  <-> forall e, e <> Default -> (In e a <-> In e b).
Proof.
  split.
  - intros Heq e Hne.
    rewrite <- (is_active_flags_of a e Hne), <- (is_active_flags_of b e Hne).
    rewrite Heq. tauto.
  - intros Hsame. rewrite !flags_of_fold.
    apply Z.bits_inj'. intros n _. rewrite !fold_testbit.
    apply eq_true_iff_eq. rewrite !existsb_exists.
    split; intros [e [Hin He]]; exists e;
      (split; [|exact He]);
      destruct (bit e) as [k|] eqn:Hb; try discriminate;
      apply (Hsame e (bit_not_Default e k Hb)); exact Hin.
Qed.

(** X10.  Whatever the experiments, their flags have no bit set outside
    positions 2 to 7, 9 and 10: bits 0, 1 and 8 and every bit from 11
    up stay clear. *)
Theorem flags_of_uses_assigned_bits_only (active : list Experiment) :
  (forall n, Z.testbit (flags_of active) n = true ->
             In n [2; 3; 4; 5; 6; 7; 9; 10])
  /\ Z.land (flags_of active) (Z.lnot 1788) = 0
  /\ 0 <= flags_of active < 2 ^ 11.
Proof.
  assert (Hbits : forall n, Z.testbit (flags_of active) n = true ->
                            In n [2; 3; 4; 5; 6; 7; 9; 10]).
  { intros n. rewrite flags_of_fold, fold_testbit, existsb_exists.
    intros [e [_ He]].
    destruct e; cbn [bit] in He; try discriminate;
      apply Z.eqb_eq in He; subst n; cbn; tauto. }
  split; [exact Hbits|]. split.
  - apply Z.bits_inj'. intros n Hn.
    rewrite Z.land_spec, Z.lnot_spec, Z.bits_0 by exact Hn.
    destruct (Z.testbit (flags_of active) n) eqn:Ht; [|reflexivity].
    apply Hbits in Ht. cbn in Ht.
    repeat (destruct Ht as [<-|Ht]; [reflexivity|]). destruct Ht.
  - rewrite flags_of_fold. apply fold_range.
Qed.

End experiments_sets.

(** The adapter around the recorder overrides no section function, so
    wrapping it once more and looking at the result as an unnamed
    acceptor gives it back. *)
Lemma DroppingAcceptor_unnamed_round_trip_witness :
  WithNames_as_RootAndSlotAcceptor
    (DroppingAcceptor
       (WithNames_as_RootAndSlotAcceptor (DroppingAcceptor (@Recorder Z Z))))
  = WithNames_as_RootAndSlotAcceptor (DroppingAcceptor (@Recorder Z Z)).
Proof.
  apply (DroppingAcceptor_unnamed_round_trip
           (WithNames_as_RootAndSlotAcceptor (DroppingAcceptor (@Recorder Z Z)))).
  reflexivity.
Defined.
